(** * Dynamic e-pharmacophore analysis: the feature-signature aggregation

    A shallow embedding of [dynophore_feature_analysis.py]: the loop that
    fills [frame_feature_map], the construction of [rmsd_df], the frequency
    table [feature_counts], the list [summary_records], the sorted
    [summary_df] and the selection [plot_df]; beside them the choice of the
    palette, the lines of the report and the moves and copies of files that
    end the script.

    Conventions of the embedding.
    - A DataFrame is the list of its rows, in row order; a row is a record.
      The index labels that [read_csv] assigns (0, 1, 2, ...) are kept in a
      field of the row, because [idxmin] and [.loc] communicate through them.
    - An integer column holds 64-bit signed integers, written in [Z]; the
      one addition the script performs on them, [Frame + 1], wraps as numpy's
      does.
    - A float column holds finite numbers, each written as the rational it
      is equal to, in [Q]; comparisons and the division of line 84 are exact.
      A cell that converts to NaN or to an infinity is not followed.  The
      value that [round] returns at line 98 is computed in binary64, as
      numpy computes it, from the float64 nearest to the number of the
      column, and is kept as a float64.
    - What pandas does behind a call is described by a record [Pandas] of
      operations with the properties its documentation promises; the script
      is embedded on top of an arbitrary such record.
    - Strings are strings of bytes; a digit is one of the ten ASCII digits.
    - The file system is the finite map from the paths of the regular files
      below the working directory to their contents. *)

From Corelib Require SpecFloat.
From Stdlib Require Import Ascii String QArith Qround Lqa.
From stdpp Require Import base option list sorting strings gmap pretty.

Local Open Scope string_scope.
Local Open Scope list_scope.
Local Open Scope nat_scope.

(** ** Exceptions *)

(** The result of a statement that may raise: [Raised e] carries the text of
    the exception, [Returned a] the value. *)
Inductive outcome (A : Type) : Type :=
  | Raised (e : string)
  | Returned (a : A).
Arguments Raised {A} e.
Arguments Returned {A} a.

Definition outcome_bind {A B} (f : A → outcome B) (m : outcome A) : outcome B :=
  match m with
  | Raised e => Raised e
  | Returned a => f a
  end.

#[global] Instance outcome_ret : MRet outcome := λ A a, Returned a.
#[global] Instance outcome_mbind : MBind outcome := λ A B f m, outcome_bind f m.

(** ** Strings *)

Definition is_digit (c : ascii) : bool :=
  (48 <=? nat_of_ascii c) && (nat_of_ascii c <=? 57).

(** [re.sub(r'\d+', '', feat)] *)
Fixpoint strip_digits (s : string) : string :=
  match s with
  | EmptyString => EmptyString
  | String c s' => if is_digit c then strip_digits s' else String c (strip_digits s')
  end.

(** [''.join(parts)] *)
Definition join (parts : list string) : string :=
  foldr String.append EmptyString parts.

(** [s.count(c)] for a one-character [c] *)
Fixpoint count_char (c : ascii) (s : string) : nat :=
  match s with
  | EmptyString => 0
  | String d s' => (if Ascii.eqb c d then 1 else 0) + count_char c s'
  end.

(** The longest prefix of digits, and what follows it. *)
Fixpoint span_digits (s : string) : string * string :=
  match s with
  | EmptyString => (EmptyString, EmptyString)
  | String c s' =>
      if is_digit c
      then let '(d, r) := span_digits s' in (String c d, r)
      else (EmptyString, s)
  end.

(** [int(digits)] on a string of ASCII digits, most significant first. *)
Definition int_of_digits (s : string) : Z :=
  foldl (λ acc c, 10 * acc + Z.of_nat (nat_of_ascii c - 48))%Z 0%Z
        (list_ascii_of_string s).

(** The two regular expressions of the script,
    [\d+_hypo_features_table\.csv$] matched at the start of a directory entry
    and [(\d+)_hypo_features_table\.csv] searched in the base name, agree on
    the entries that pass the first: group 1 is the leading run of digits.
    (A name that ends in a line feed is not considered.) *)
Definition hypo_frame_digits (name : string) : option string :=
  let '(d, r) := span_digits name in
  if decide (d ≠ EmptyString ∧ r = "_hypo_features_table.csv") then Some d else None.

(** ** Feature tables (lines 49 to 69) *)

(** A parsed table: the columns in file order, each with its name and its
    cells as [astype(str)] renders them. *)
Definition table : Type := list (string * list string).

(** One entry of [csv_dir] as the script sees it: the name, what
    [f.readline()] gives on the opened file and what [pd.read_csv] gives for
    a delimiter.  Both may raise. *)
Record csv_file : Type := CsvFile {
  file_name : string;
  readline : outcome string;
  read_csv : ascii → outcome table
}.

Definition csv_dir : string := "DYNOPHORE_ANALYSIS/PROCESSED_FILES".

(** [os.path.join(csv_dir, f)] *)
Definition csv_path (f : csv_file) : string :=
  csv_dir +:+ "/" +:+ file_name f.

(** [csv_files]: the matching entries, sorted by path.  All paths share the
    directory, so the order is the order of the names; the entries of a
    directory have distinct names, so that order is the only sorted one. *)
Definition name_le (f g : csv_file) : Prop :=
  String.leb (file_name f) (file_name g) = true.

#[global] Instance name_le_dec : RelDecision name_le.
Proof. intros f g. unfold name_le. apply _. Defined.

Definition csv_files (listdir : list csv_file) : list csv_file :=
  merge_sort name_le
    (filter (λ f, is_Some (hypo_frame_digits (file_name f))) listdir).

(** [int(match.group(1))] *)
Definition frame_id_of (f : csv_file) : option Z :=
  int_of_digits <$> hypo_frame_digits (file_name f).

(** ['Feature_label' if 'Feature_label' in df.columns else df.columns[1]],
    followed by [df[feature_col].astype(str).tolist()] *)
Definition feature_column (df : table) : outcome (list string) :=
  match list_find (λ col, col.1 = "Feature_label") df with
  | Some (_, col) => Returned col.2
  | None =>
      match df !! 1 with
      | Some col => Returned col.2
      | None => (* IndexError *)
          Raised ("index 1 is out of bounds for axis 0 with size "
                    +:+ (if df is [] then "0" else "1"))
      end
  end.

(** The body of the [try] block: the signature of one table. *)
Definition features_clean_of (f : csv_file) : outcome string :=
  header ← readline f;
  let delimiter :=
    if count_char "," header <? count_char ";" header
    then ";"%char else ","%char in
  df ← read_csv f delimiter;
  features_raw ← feature_column df;
  mret (join (strip_digits <$> features_raw)).

(** The state the loop threads: the dictionary and what the loop printed. *)
Record loader_state : Type := LoaderState {
  frame_feature_map : gmap Z string;
  stdout : list string
}.

Definition loader_init : loader_state := LoaderState ∅ [].

(** One iteration of [for csv_path in csv_files]. *)
Definition load_one (st : loader_state) (f : csv_file) : loader_state :=
  match frame_id_of f with
  | None => st
  | Some frame_id =>
      match features_clean_of f with
      | Returned features_clean =>
          LoaderState (<[frame_id := features_clean]> (frame_feature_map st)) (stdout st)
      | Raised e =>
          LoaderState (frame_feature_map st)
                      (stdout st ++ ["Error reading " +:+ csv_path f +:+ ": " +:+ e])
      end
  end.

Definition load_feature_tables (files : list csv_file) : loader_state :=
  foldl load_one loader_init files.

(** ** Machine numbers *)

(** [int64] addition: the sum modulo 2^64, taken in the range of the signed
    64-bit integers. *)
Definition int64_min : Z := (- 2 ^ 63)%Z.
Definition int64_max : Z := (2 ^ 63 - 1)%Z.

Definition int64_wrap (z : Z) : Z := ((z - int64_min) mod 2 ^ 64 + int64_min)%Z.

(** [float64]: the binary64 numbers of IEEE 754, 53 bits of precision, with
    the operations of the library's specification of them, which round to
    the nearest number, a tie going to the even one. *)
Definition float64 : Type := SpecFloat.spec_float.

Definition float64_mul : float64 → float64 → float64 := SpecFloat.SFmul 53 1024.
Definition float64_div : float64 → float64 → float64 := SpecFloat.SFdiv 53 1024.

(** The float64 nearest to an integer and to a rational. *)
Definition float_of_Z (z : Z) : float64 := SpecFloat.binary_normalize 53 1024 z 0 false.

Definition float_of_Q (q : Q) : float64 :=
  let quotient (negative : bool) (n : positive) : float64 :=
    let '(mz, ez, lz) :=
      SpecFloat.SFdiv_core_binary 53 1024 (Zpos n) 0 (Zpos (Qden q)) 0 in
    SpecFloat.binary_round_aux 53 1024 negative mz ez lz in
  match Qnum q with
  | Z0 => SpecFloat.S754_zero false
  | Zpos n => quotient false n
  | Zneg n => quotient true n
  end.

(** The number a float64 is equal to, when it is one. *)
Definition float_value (x : float64) : option Q :=
  match x with
  | SpecFloat.S754_zero _ => Some 0%Q
  | SpecFloat.S754_finite s m e =>
      let mantissa := inject_Z (if s then Zneg m else Zpos m) in
      Some (Qred (if (0 <=? e)%Z then mantissa * inject_Z (2 ^ e)
                  else mantissa / inject_Z (2 ^ (- e))))
  | _ => None
  end.

(** ** What the script asks of pandas *)

(** A sort in descending order of a key, as [sort_values(ascending=False)]
    with the default [kind='quicksort'] promises it: the rows come back
    rearranged, largest key first.  pandas documents only [mergesort] and
    [stable] as stable, so nothing is said about rows with equal keys. *)
Record DescSort (K : Type) (le : relation K) : Type := MkDescSort {
  sort_desc : ∀ A : Type, (A → K) → list A → list A;
  sort_desc_perm : ∀ A (key : A → K) (l : list A), sort_desc A key l ≡ₚ l;
  sort_desc_sorted : ∀ A (key : A → K) (l : list A),
    StronglySorted (λ x y, le (key y) (key x)) (sort_desc A key l)
}.
Arguments sort_desc {K le} _ {A} key l.
Arguments sort_desc_perm {K le} _ {A} key l.
Arguments sort_desc_sorted {K le} _ {A} key l.

Record Pandas : Type := MkPandas {
  (** a cell of the trajectory file as [read_csv] returns it, before any
      [astype] *)
  cell : Type;
  (** [astype(int)] on one cell: the integer of the [int64] column, [None]
      when the conversion raises *)
  astype_int : cell → option Z;
  astype_int_int64 : ∀ c z, astype_int c = Some z → (int64_min ≤ z ≤ int64_max)%Z;
  (** [astype(float)] on one cell: the finite number of the [float64]
      column; [None] when the conversion raises, and for a cell that gives
      NaN or an infinity *)
  astype_float : cell → option Q;
  (** the sort by frequency inside [value_counts()] *)
  value_counts_order : DescSort nat Nat.le;
  (** [sort_values(by='Count', ascending=False)] *)
  sort_values_order : DescSort nat Nat.le;
  (** the order in which [nlargest] returns the rows it selects *)
  nlargest_order : DescSort Q Qle
}.

(** ** The three tables *)

(** Rows of [rmsd_df]. *)
Module Rmsd.
Record row : Type := Row {
  label : nat;          (* the index label *)
  Frame : Z;
  RMSD : Q;
  Frame_ID : Z;
  Features : string
}.
End Rmsd.

(** Rows of [feature_counts]. *)
Module Counts.
Record row : Type := Row {
  Features : string;
  Count : nat;
  Percent : Q;
  Length : nat
}.
End Counts.

(** Rows of [summary_df], the dictionaries of [summary_records]. *)
Module Summary.
Record row : Type := Row {
  Features : string;
  Lowest_RMSD : float64;
  Frame : Z;
  Count : nat;
  Length : nat;
  Percent : Q
}.
End Summary.

(** ** Configuration (lines 25 and 26) *)

Definition top_n : nat := 10.
Definition exclude_lengths : list nat := [1; 2; 3].

(** ** The script from line 72 on *)

Section Script.
  Context (P : Pandas).

(** Lines 72 to 78: from the rows that [pd.read_csv(rmsd_path, sep=r'\s+',
    comment='#', header=None, names=["Frame", "RMSD"])] returns, labelled
    0, 1, 2, ..., to [rmsd_df].  [None] when a conversion raises (or gives
    no finite number, see [astype_float]). *)
Definition rmsd_df (rows : list (cell P * cell P)) (m : gmap Z string)
  : option (list Rmsd.row) :=
  let df := imap (λ i r, (i, r.1, r.2)) rows in
  (* rmsd_df = rmsd_df.iloc[1:].copy() *)
  let df := drop 1 df in
  (* rmsd_df["Frame"] = rmsd_df["Frame"].astype(int) *)
  df ← mapM (λ '(i, frame, rmsd), f ← astype_int P frame; Some (i, f, rmsd)) df;
  (* rmsd_df["RMSD"] = rmsd_df["RMSD"].astype(float) *)
  df ← mapM (λ '(i, f, rmsd), x ← astype_float P rmsd; Some (i, f, x)) df;
  (* rmsd_df["Frame_ID"] = rmsd_df["Frame"] + 1 *)
  let df := (λ '(i, f, x), (i, f, x, int64_wrap (f + 1))) <$> df in
  (* rmsd_df = rmsd_df[rmsd_df["Frame_ID"] != 5002] *)
  let df := filter (λ r, r.2 ≠ 5002%Z) df in
  (* rmsd_df['Features'] = rmsd_df['Frame_ID'].map(frame_feature_map).fillna('-') *)
  Some ((λ '(i, f, x, frame_id), Rmsd.Row i f x frame_id (default "-" (m !! frame_id)))
          <$> df).

(** Line 81. *)
Definition total_frames (df : list Rmsd.row) : nat := length df.

(** The hash table behind [value_counts]: one entry per distinct value, in
    order of first appearance, with the number of its occurrences. *)
Fixpoint count_value (v : string) (acc : list (string * nat)) : list (string * nat) :=
  match acc with
  | [] => [(v, 1)]
  | (w, c) :: acc' =>
      if decide (v = w) then (w, S c) :: acc' else (w, c) :: count_value v acc'
  end.

Definition value_count (values : list string) : list (string * nat) :=
  foldl (λ acc v, count_value v acc) [] values.

(** [Series.value_counts()]: the entries, most frequent first. *)
Definition value_counts (values : list string) : list (string * nat) :=
  sort_desc (value_counts_order P) snd (value_count values).

(** Lines 82 to 85: [feature_counts] with its columns [Features], [Count],
    [Percent] and [Length]. *)
Definition feature_counts (df : list Rmsd.row) : list Counts.row :=
  let matched := filter (λ r, Rmsd.Features r ≠ "-") df in
  (λ '(feat, count),
     Counts.Row feat count
                (100 * inject_Z (Z.of_nat count) / inject_Z (Z.of_nat (total_frames df)))%Q
                (String.length feat))
    <$> value_counts (Rmsd.Features <$> matched).

(** [Series.idxmin()]: the label of the first row that holds the minimum.
    The scan keeps the row it has unless a later one is strictly smaller. *)
Fixpoint first_min (best : Rmsd.row) (l : list Rmsd.row) : Rmsd.row :=
  match l with
  | [] => best
  | r :: l' =>
      if Qle_bool (Rmsd.RMSD best) (Rmsd.RMSD r)
      then first_min best l' else first_min r l'
  end.

Definition idxmin (subset : list Rmsd.row) : option nat :=
  match subset with
  | [] => None
  | r :: l => Some (Rmsd.label (first_min r l))
  end.

(** [subset.loc[lbl]] on a table whose labels are distinct: the row of that
    label; [None] for the [KeyError]. *)
Definition loc (subset : list Rmsd.row) (lbl : nat) : option Rmsd.row :=
  snd <$> list_find (λ r, Rmsd.label r = lbl) subset.

(** The nearest integer, a tie going to the even one. *)
Definition rint (x : Q) : Z :=
  let f := Qfloor x in
  match (x - inject_Z f ?= 1 # 2)%Q with
  | Lt => f
  | Gt => (f + 1)%Z
  | Eq => if Z.even f then f else (f + 1)%Z
  end.

(** [round(x, ndigits)] on a Python float, as line 102 calls it on the
    percentage: the decimal with [ndigits] decimals nearest to [x], a tie
    going to the even one. *)
Definition round (x : Q) (ndigits : nat) : Q :=
  (inject_Z (rint (x * inject_Z (10 ^ Z.of_nat ndigits)))
     / inject_Z (10 ^ Z.of_nat ndigits))%Q.

(** [numpy.rint]: the nearest integer as a float64, a tie going to the even
    one; zeros keep their sign, NaN and the infinities pass. *)
Definition np_rint (x : float64) : float64 :=
  match x with
  | SpecFloat.S754_finite s m e =>
      if (0 <=? e)%Z then x
      else
        match rint (inject_Z (if s then Zneg m else Zpos m) / inject_Z (2 ^ (- e))) with
        | Z0 => SpecFloat.S754_zero s
        | n => float_of_Z n
        end
  | _ => x
  end.

(** [round(x, decimals)] on a [numpy.float64], as line 98 calls it on the
    RMSD that [.loc] returns: numpy multiplies by the power of ten, rounds
    to the nearest integer and divides, each step in binary64. *)
Definition np_round (x : float64) (decimals : nat) : float64 :=
  let factor := float_of_Z (10 ^ Z.of_nat decimals) in
  float64_div (np_rint (float64_mul x factor)) factor.

(** Lines 93 to 103: one turn of the loop that fills [summary_records]. *)
Definition summary_record (df : list Rmsd.row) (row : Counts.row)
  : option Summary.row :=
  let feat := Counts.Features row in
  let subset := filter (λ r, Rmsd.Features r = feat) df in
  lbl ← idxmin subset;
  min_row ← loc subset lbl;
  Some (Summary.Row feat
                    (np_round (float_of_Q (Rmsd.RMSD min_row)) 3)
                    (Rmsd.Frame_ID min_row)
                    (Counts.Count row)
                    (String.length feat)
                    (round (Counts.Percent row) 1)).

(** Lines 91 and 92. *)
Definition summary_records (df : list Rmsd.row) (fc : list Counts.row)
  : option (list Summary.row) :=
  mapM (summary_record df) fc.

(** Lines 87 to 104: [summary_df]; [None] when the script leaves through
    [exit()] (or when a lookup raises, which [summary_df_defined] excludes). *)
Definition summary_df (df : list Rmsd.row) : option (list Summary.row) :=
  let fc := feature_counts df in
  if fc is [] then None
  else
    recs ← summary_records df fc;
    Some (sort_desc (sort_values_order P) Summary.Count recs).

(** [DataFrame.nlargest(n, column)]: the first [n] rows in descending order
    of the column. *)
Definition nlargest (n : nat) (column : Summary.row → Q) (df : list Summary.row)
  : list Summary.row :=
  take n (sort_desc (nlargest_order P) column df).

(** Line 135: [plot_df]. *)
Definition plot_df (sdf : list Summary.row) : list Summary.row :=
  nlargest top_n Summary.Percent
           (filter (λ s, Summary.Length s ∉ exclude_lengths) sdf).

(** Line 196: [filtered_summary]. *)
Definition filtered_summary (sdf : list Summary.row) : list Summary.row :=
  take 3 (filter (λ s, 4 ≤ Summary.Length s) sdf).

End Script.


(** ** Two implementations of the pandas operations

    Both meet the record [Pandas], which shows that the record can be met,
    and they serve to run the script on concrete tables.  The first sorts
    by insertion.  The second sorts as pandas does with the default
    [kind='quicksort'], through numpy's [argsort]; the two agree on short
    tables. *)

Section DescSorts.
  Context {K : Type} (le : relation K) (leb : K → K → bool).
  Context (leb_le : ∀ x y, leb x y = true ↔ le x y).
  Context (le_total : ∀ x y, le x y ∨ le y x).
  Context (le_trans : ∀ x y z, le x y → le y z → le x z).

(** Insertion into a list in descending order of keys: [x] goes in front of
    the first row whose key is not larger than its own. *)
Fixpoint insert_desc {A} (key : A → K) (x : A) (l : list A) : list A :=
  match l with
  | [] => [x]
  | y :: l' =>
      if leb (key y) (key x) then x :: y :: l' else y :: insert_desc key x l'
  end.

(** Insertion sort from the last row to the first: rows with equal keys keep
    their order. *)
Definition insertion_sort {A} (key : A → K) (l : list A) : list A :=
  foldr (insert_desc key) [] l.

(** Insertion sort is a sort in descending order in which rows with equal
    keys keep their order. *)
Definition stable_sort : DescSort K le.
Proof.
  refine (MkDescSort K le (λ A key l, insertion_sort key l) _ _).
  - intros A key l.
    induction l as [|x l IH]; simpl; [done|].
    rewrite <-IH at 2. generalize (insertion_sort key l). clear. intros l.
    induction l as [|y l IH]; simpl; [done|].
    destruct (leb (key y) (key x)); [done|].
    rewrite IH. apply Permutation_swap.
  - intros A key l.
    induction l as [|x l IH]; simpl; [constructor|].
    revert IH. generalize (insertion_sort key l). clear l. intros l.
    induction 1 as [|y l Hl IH Hy]; simpl.
    + repeat constructor.
    + destruct (leb (key y) (key x)) eqn:E.
      * apply leb_le in E. constructor; [by constructor|].
        constructor; [done|].
        eapply Forall_impl; [exact Hy|]. simpl. eauto.
      * constructor; [done|].
        assert (Forall (λ b, le (key b) (key y)) (x :: l)) as Hxl.
        { constructor; [|done].
          destruct (le_total (key x) (key y)) as [H|H]; [done|].
          apply leb_le in H. congruence. }
        revert Hxl. clear. revert x.
        induction l as [|z l IH]; intros x Hxl; simpl; [done|].
        destruct (leb (key z) (key x)); [done|].
        inversion Hxl as [|? ? Hx Hzl]; subst.
        inversion Hzl as [|? ? Hz Hl]; subst.
        constructor; [done|]. apply IH. by constructor.
Defined.

End DescSorts.

Definition nat_le_total (x y : nat) : x ≤ y ∨ y ≤ x :=
  match le_ge_dec x y with left H => or_introl H | right H => or_intror H end.

Definition Qle_total (x y : Q) : (x <= y)%Q ∨ (y <= x)%Q :=
  match Qlt_le_dec x y with
  | left H => or_introl (Qlt_le_weak x y H)
  | right H => or_intror H
  end.

Definition nat_stable : DescSort nat Nat.le :=
  stable_sort Nat.le Nat.leb Nat.leb_le nat_le_total Nat.le_trans.
Definition Q_stable : DescSort Q Qle :=
  stable_sort Qle Qle_bool Qle_bool_iff Qle_total Qle_trans.

(** numpy's [argsort] with [kind='quicksort'] on an [int64] array [v], the
    portable kernel [aquicksort_] of [npysort/quicksort.cpp]: [tosort] holds
    the positions 0, 1, 2, ... and is rearranged in place; a pointer into it
    is the offset from its start.  Ranges of more than 17 positions are
    partitioned around the median of three, shorter ones are sorted by
    insertion. *)
Section Quicksort.
  Variable v : nat → Z.

Definition deref (tosort : list nat) (p : nat) : nat := default 0 (tosort !! p).

Definition intp_swap (tosort : list nat) (p q : nat) : list nat :=
  <[q := deref tosort p]> (<[p := deref tosort q]> tosort).

Definition less (a b : Z) : bool := (a <? b)%Z.

(** [do { ++pi; } while (less(v[*pi], vp));] *)
Fixpoint scan_up (fuel : nat) (tosort : list nat) (vp : Z) (pi : nat) : nat :=
  match fuel with
  | 0 => pi
  | S fuel =>
      let pi := S pi in
      if less (v (deref tosort pi)) vp then scan_up fuel tosort vp pi else pi
  end.

(** [do { --pj; } while (less(vp, v[*pj]));] *)
Fixpoint scan_down (fuel : nat) (tosort : list nat) (vp : Z) (pj : nat) : nat :=
  match fuel with
  | 0 => pj
  | S fuel =>
      let pj := pred pj in
      if less vp (v (deref tosort pj)) then scan_down fuel tosort vp pj else pj
  end.

(** The [for (;;)] loop of the partition: scan, stop when the pointers have
    met, swap. *)
Fixpoint partition_loop (fuel : nat) (tosort : list nat) (vp : Z) (pi pj : nat)
  : list nat * nat :=
  match fuel with
  | 0 => (tosort, pi)
  | S fuel =>
      let pi := scan_up (length tosort) tosort vp pi in
      let pj := scan_down (length tosort) tosort vp pj in
      if decide (pj ≤ pi) then (tosort, pi)
      else partition_loop fuel (intp_swap tosort pi pj) vp pi pj
  end.

(** One partition of the range from [pl] to [pr]: the median of the first,
    the middle and the last position goes to [pr - 1] and serves as pivot. *)
Definition partition (tosort : list nat) (pl pr : nat) : list nat * nat :=
  let pm := pl + (pr - pl) / 2 in
  let tosort :=
    if less (v (deref tosort pm)) (v (deref tosort pl)) then intp_swap tosort pm pl
    else tosort in
  let tosort :=
    if less (v (deref tosort pr)) (v (deref tosort pm)) then intp_swap tosort pr pm
    else tosort in
  let tosort :=
    if less (v (deref tosort pm)) (v (deref tosort pl)) then intp_swap tosort pm pl
    else tosort in
  let vp := v (deref tosort pm) in
  let pi := pl in
  let pj := pr - 1 in
  let tosort := intp_swap tosort pm pj in
  let '(tosort, pi) := partition_loop (length tosort) tosort vp pi pj in
  let pk := pr - 1 in
  (intp_swap tosort pi pk, pi).

(** [while (pj > pl && less(vp, v[*pk])) { *pj-- = *pk--; }], then
    [*pj = vi]. *)
Fixpoint shift (fuel : nat) (tosort : list nat) (pl : nat) (vi : nat) (pj : nat)
  : list nat :=
  match fuel with
  | 0 => <[pj := vi]> tosort
  | S fuel =>
      if decide (pl < pj) then
        if less (v vi) (v (deref tosort (pj - 1)))
        then shift fuel (<[pj := deref tosort (pj - 1)]> tosort) pl vi (pj - 1)
        else <[pj := vi]> tosort
      else <[pj := vi]> tosort
  end.

(** The insertion sort of a short range: [for (pi = pl + 1; pi <= pr; ++pi)]. *)
Definition insertion (tosort : list nat) (pl pr : nat) : list nat :=
  foldl (λ tosort pi, shift (length tosort) tosort pl (deref tosort pi) pi)
        tosort (seq (S pl) (pr - pl)).

(** [while ((pr - pl) > SMALL_QUICKSORT)], with [SMALL_QUICKSORT = 16]: the
    range is partitioned, the larger part goes to the stack with the depth
    left, the smaller part is the next range. *)
Fixpoint partitions (fuel : nat) (tosort : list nat) (pl pr : nat)
    (stack : list (nat * nat * Z)) (cdepth : Z)
  : list nat * nat * nat * list (nat * nat * Z) * Z :=
  match fuel with
  | 0 => (tosort, pl, pr, stack, cdepth)
  | S fuel =>
      if decide (16 < pr - pl) then
        let '(tosort, pi) := partition tosort pl pr in
        let cdepth := (cdepth - 1)%Z in
        if decide (pi - pl < pr - pi)
        then partitions fuel tosort pl (pi - 1) ((pi + 1, pr, cdepth) :: stack) cdepth
        else partitions fuel tosort (pi + 1) pr ((pl, pi - 1, cdepth) :: stack) cdepth
      else (tosort, pl, pr, stack, cdepth)
  end.

(** The [while (1)] loop.  [None] where numpy leaves the quicksort for a heap
    sort, when the depth left is negative; that sort is not followed. *)
Fixpoint sort_loop (fuel : nat) (tosort : list nat) (pl pr : nat)
    (stack : list (nat * nat * Z)) (cdepth : Z) : option (list nat) :=
  match fuel with
  | 0 => None
  | S fuel =>
      if decide (cdepth < 0)%Z then None
      else
        let '(tosort, pl, pr, stack, cdepth) :=
          partitions (length tosort) tosort pl pr stack cdepth in
        let tosort := insertion tosort pl pr in
        match stack with
        | [] => Some tosort
        | (pl, pr, cdepth) :: stack => sort_loop fuel tosort pl pr stack cdepth
        end
  end.

End Quicksort.

Definition aquicksort (v : list Z) : option (list nat) :=
  let num := length v in
  let tosort := seq 0 num in
  if decide (num = 0) then Some tosort
  else sort_loop (λ k, default 0%Z (v !! k)) (S num) tosort 0 (num - 1) []
                 (2 * Z.log2 (Z.of_nat num))%Z.

(** [nargsort(items, kind='quicksort', ascending=False)] of
    [pandas/core/sorting.py] on a column without NaN: the column is sorted in
    ascending order last row first, and the positions found are read last to
    first. *)
Definition nargsort_descending (items : list Z) : option (list nat) :=
  let idx := seq 0 (length items) in
  let non_nans := reverse items in
  let non_nan_idx := reverse idx in
  order ← aquicksort non_nans;
  let indexer := (λ o, default 0 (non_nan_idx !! o)) <$> order in
  Some (reverse indexer).

(** [sort_values(ascending=False)] on a column of counts: the rows taken at
    the positions that [nargsort] returns.  Where the quicksort is not
    followed the rows are sorted by insertion; so are they if the positions
    were no rearrangement into descending order, which [numpy_quicksort]
    need not exclude then. *)
Definition numpy_sort_values {A} (key : A → nat) (l : list A) : list A :=
  match nargsort_descending ((λ a, Z.of_nat (key a)) <$> l) with
  | Some indexer =>
      let rows := omap (λ i, l !! i) indexer in
      match decide (indexer ≡ₚ seq 0 (length l)),
            decide (StronglySorted (λ a b, key b ≤ key a) rows) with
      | left _, left _ => rows
      | _, _ => sort_desc nat_stable key l
      end
  | None => sort_desc nat_stable key l
  end.

Definition numpy_quicksort : DescSort nat Nat.le.
Proof.
  refine (MkDescSort nat Nat.le (λ A key l, numpy_sort_values key l) _ _);
    intros A key l; unfold numpy_sort_values;
    destruct (nargsort_descending _) as [indexer|];
    try apply (sort_desc_perm nat_stable); try apply (sort_desc_sorted nat_stable);
    destruct (decide (indexer ≡ₚ _)) as [Hperm|];
    try apply (sort_desc_perm nat_stable); try apply (sort_desc_sorted nat_stable);
    destruct (decide (StronglySorted _ _)) as [Hsorted|];
    try apply (sort_desc_perm nat_stable); try apply (sort_desc_sorted nat_stable);
    [|exact Hsorted].
  assert (∀ (l1 l2 : list nat), l1 ≡ₚ l2 →
            omap (λ i, l !! i) l1 ≡ₚ omap (λ i, l !! i) l2) as Homap.
  { induction 1 as [|i l1 l2 _ IH|i j l1|l1 l2 l3 _ IH1 _ IH2]; simpl.
    - done.
    - destruct (l !! i); [by f_equiv|done].
    - destruct (l !! i), (l !! j); try done. apply Permutation_swap.
    - by etrans. }
  rewrite (Homap _ _ Hperm). clear.
  assert (∀ (front : list A),
            omap (λ i, (front ++ l) !! i) (seq (length front) (length l)) = l) as Hseq.
  { induction l as [|a l IH]; intros front; simpl; [done|].
    rewrite list_lookup_middle by done. simpl. f_equal.
    specialize (IH (front ++ [a])).
    rewrite length_app, <-app_assoc in IH. simpl in IH.
    by rewrite Nat.add_1_r in IH. }
  pose proof (Hseq []) as Hall. simpl in Hall. by rewrite Hall.
Defined.

(** A cell of a trajectory file that holds numbers only: an integer of an
    [int64] column, or the decimal that the file spells in a [float64]
    column. *)
Inductive field : Type :=
  | Int (z : Z)
  | Float (q : Q).

(** Conversion of a float to an integer drops the fraction. *)
Definition truncate (q : Q) : Z :=
  if Qle_bool 0 q then Qfloor q else Qceiling q.

Definition int64_checked (z : Z) : option Z :=
  if decide (int64_min ≤ z ≤ int64_max)%Z then Some z else None.

(** A float converts to the integer part of the float64 that holds it; one
    that lies outside [int64] is not converted here. *)
Definition field_to_int (c : field) : option Z :=
  match c with
  | Int z => int64_checked z
  | Float q => float_value (float_of_Q q) ≫= λ x, int64_checked (truncate x)
  end.

Definition field_to_int_int64 (c : field) (z : Z) :
  field_to_int c = Some z → (int64_min ≤ z ≤ int64_max)%Z.
Proof.
  assert (∀ y, int64_checked y = Some z → (int64_min ≤ z ≤ int64_max)%Z) as Hchecked.
  { intros y. unfold int64_checked. case_decide; [|done]. by intros [= <-]. }
  destruct c as [y|q]; simpl; [apply Hchecked|].
  destruct (float_value (float_of_Q q)) as [x|]; simpl; [apply Hchecked|done].
Qed.

Definition field_to_float (c : field) : option Q :=
  match c with
  | Int z => Some (inject_Z z)
  | Float q => Some q
  end.

(** Every sort stable. *)
Definition pandas_stable : Pandas :=
  MkPandas field field_to_int field_to_int_int64 field_to_float
           nat_stable nat_stable Q_stable.

(** The two sorts by count as numpy carries them out; [nlargest] keeps the
    first of the rows with equal values, as its default [keep='first']
    says. *)
Definition pandas_numpy : Pandas :=
  MkPandas field field_to_int field_to_int_int64 field_to_float
           numpy_quicksort numpy_quicksort Q_stable.

(** ** Vocabulary of the statements *)

(** Sources.  A source that parsed, with its frame index and its signature;
    and the line printed for a source that did not. *)
Definition parsed (f : csv_file) : option (Z * string) :=
  match frame_id_of f, features_clean_of f with
  | Some frame_id, Returned features_clean => Some (frame_id, features_clean)
  | _, _ => None
  end.

Definition warning (f : csv_file) : option string :=
  match frame_id_of f, features_clean_of f with
  | Some _, Raised e => Some ("Error reading " +:+ csv_path f +:+ ": " +:+ e)
  | _, _ => None
  end.

(** Trajectory.  The rows of the RMSD file with the labels [read_csv] gives
    them, and what it means for a row of [rmsd_df] to come from one. *)
Definition labelled {P : Pandas} (rows : list (cell P * cell P))
  : list (nat * cell P * cell P) :=
  imap (λ i r, (i, r.1, r.2)) rows.

Definition derived {P : Pandas} (m : gmap Z string)
    (t : nat * cell P * cell P) (r : Rmsd.row) : Prop :=
  Rmsd.label r = t.1.1 ∧
  astype_int P t.1.2 = Some (Rmsd.Frame r) ∧
  astype_float P t.2 = Some (Rmsd.RMSD r) ∧
  Rmsd.Frame_ID r = int64_wrap (Rmsd.Frame r + 1) ∧
  Rmsd.Features r = default "-" (m !! Rmsd.Frame_ID r).

(** Frames.  Those with a signature, those without, and those of one
    signature: the members of its group. *)
Definition matched (df : list Rmsd.row) : list Rmsd.row :=
  filter (λ r, Rmsd.Features r ≠ "-") df.

Definition unmatched (df : list Rmsd.row) : list Rmsd.row :=
  filter (λ r, Rmsd.Features r = "-") df.

Definition members (feat : string) (df : list Rmsd.row) : list Rmsd.row :=
  filter (λ r, Rmsd.Features r = feat) df.

(** Counting.  The occurrences of [w] in a list, and the count an association
    list holds for [w]. *)
Definition occurrences (w : string) (values : list string) : nat :=
  length (filter (λ v, v = w) values).

Definition held (acc : list (string * nat)) (w : string) : nat :=
  sum_list_with snd (filter (λ p, p.1 = w) acc).

(** Minimum.  [r] is the first row of [subset], in row order, that holds the
    least [RMSD] of [subset]. *)
Definition first_minimum (subset : list Rmsd.row) (r : Rmsd.row) : Prop :=
  ∃ i, subset !! i = Some r ∧
       (∀ r', r' ∈ subset → (Rmsd.RMSD r <= Rmsd.RMSD r')%Q) ∧
       (∀ j r', j < i → subset !! j = Some r' → (Rmsd.RMSD r < Rmsd.RMSD r')%Q).

(** The dictionary appended to [summary_records] for a row of
    [feature_counts] and the row [min_row] of its group. *)
Definition summary_of (row : Counts.row) (min_row : Rmsd.row) : Summary.row :=
  Summary.Row (Counts.Features row)
              (np_round (float_of_Q (Rmsd.RMSD min_row)) 3)
              (Rmsd.Frame_ID min_row)
              (Counts.Count row)
              (String.length (Counts.Features row))
              (round (Counts.Percent row) 1).

(** Order.  Descending order of a column. *)
Definition descending {A K} (le : relation K) (column : A → K) (l : list A) : Prop :=
  StronglySorted (λ a b, le (column b) (column a)) l.

(** ** A run on five frames

    The scenario of the specification (frames 1 to 3 with the signatures
    HBHB, HB and ARHB), followed by a second frame of signature HB with the
    same RMSD as the first and by a frame without a feature table.  The
    directory also holds a file that is no feature table, a table that cannot
    be opened and a table with a single column.  The trajectory file holds
    numbers only; its first line is the one the script drops. *)

Module Scenario.

Definition feature_table (name : string) (labels : list string) : csv_file :=
  CsvFile name (Returned "Feature_id,Feature_label")
          (λ _, Returned [("Feature_id", []); ("Feature_label", labels)]).

Definition listdir : list csv_file :=
  [ feature_table "3_hypo_features_table.csv" ["AR1"; "HB4"];
    feature_table "1_hypo_features_table.csv" ["HB1"; "HB2"];
    feature_table "notes.txt" ["HY1"];
    CsvFile "7_hypo_features_table.csv" (Raised "[Errno 13] Permission denied") (λ _, Returned []);
    CsvFile "8_hypo_features_table.csv" (Returned "Feature_label_only")
            (λ _, Returned [("Feature_label_only", ["HB1"])]);
    feature_table "4_hypo_features_table.csv" ["HB7"];
    feature_table "2_hypo_features_table.csv" ["HB3"] ].

Definition loaded : loader_state := load_feature_tables (csv_files listdir).

Definition m : gmap Z string := frame_feature_map loaded.

Definition trajectory : list (field * field) :=
  [ (Int 5, Float 0);
    (Int 0, Float (5 # 10)); (Int 1, Float (3 # 10)); (Int 2, Float (9 # 10));
    (Int 3, Float (3 # 10)); (Int 4, Float (12 # 10)) ].

Definition df : list Rmsd.row :=
  [ Rmsd.Row 1 0 (5 # 10) 1 "HBHB"; Rmsd.Row 2 1 (3 # 10) 2 "HB";
    Rmsd.Row 3 2 (9 # 10) 3 "ARHB"; Rmsd.Row 4 3 (3 # 10) 4 "HB";
    Rmsd.Row 5 4 (12 # 10) 5 "-" ].

Definition hb : Summary.row :=
  Summary.Row "HB" (float_of_Q (3 # 10)) 2 2 2 (400 # 10).
Definition hbhb : Summary.row :=
  Summary.Row "HBHB" (float_of_Q (5 # 10)) 1 1 4 (200 # 10).
Definition arhb : Summary.row :=
  Summary.Row "ARHB" (float_of_Q (9 # 10)) 3 1 4 (200 # 10).

(** [summary_records] and [summary_df]. *)
Definition records : list Summary.row := [hb; hbhb; arhb].
Definition sdf_stable : list Summary.row := [hb; hbhb; arhb].

End Scenario.

(** ** A frame whose RMSD has five decimals *)

Module Decimals.

Definition m : gmap Z string := {[ 1%Z := "HBAR" ]}.

Definition trajectory : list (field * field) :=
  [ (Int 1, Float 0); (Int 0, Float (12345 # 100000)) ].

Definition frame : Rmsd.row := Rmsd.Row 1 0 (12345 # 100000) 1 "HBAR".

Definition group : Summary.row :=
  Summary.Row "HBAR" (float_of_Q (123 # 1000)) 1 1 4 (1000 # 10).

End Decimals.

(** ** Two tables for one frame *)

Module Padded.

Definition listdir : list csv_file :=
  [ Scenario.feature_table "1_hypo_features_table.csv" ["HB1"];
    Scenario.feature_table "01_hypo_features_table.csv" ["AR1"] ].

End Padded.

(** ** A trajectory that reaches the excluded frame *)

Module Excluded.

Definition trajectory : list (field * field) :=
  [ (Int 3, Float 0);
    (Int 5000, Float (11 # 10)); (Int 5001, Float (7 # 10)); (Int 5002, Float (8 # 10)) ].

Definition df : list Rmsd.row :=
  [ Rmsd.Row 1 5000 (11 # 10) 5001 "-"; Rmsd.Row 3 5002 (8 # 10) 5003 "-" ].

End Excluded.

(** ** A trajectory that reaches the largest frame counter *)

Module Wrapped.

Definition trajectory : list (field * field) :=
  [ (Int 1, Float 0); (Int 9223372036854775807, Float (4 # 10)) ].

Definition df : list Rmsd.row :=
  [ Rmsd.Row 1 9223372036854775807 (4 # 10) (-9223372036854775808) "-" ].

End Wrapped.

(** ** A trajectory of 301 frames, no two with the same signature *)

Module Crowd.

Definition frames : nat := 301.

(** The signature of frame [k + 1]: HY and two more letters. *)
Definition signature (k : nat) : string :=
  String "H" (String "Y" (String (ascii_of_nat (65 + k / 26))
                                 (String (ascii_of_nat (65 + k mod 26)) EmptyString))).

Definition m : gmap Z string :=
  list_to_map ((λ k, (Z.of_nat (S k), signature k)) <$> seq 0 frames).

Definition trajectory : list (field * field) :=
  (Int 301, Float 0) :: ((λ k, (Int (Z.of_nat k), Float 1)) <$> seq 0 frames).

Definition df : list Rmsd.row :=
  (λ k, Rmsd.Row (S k) (Z.of_nat k) 1 (Z.of_nat (S k)) (signature k)) <$> seq 0 frames.

(** The group of frame [k + 1]. *)
Definition group (k : nat) : Summary.row :=
  Summary.Row (signature k) (float_of_Q 1) (Z.of_nat (S k)) 1 4
              (round (100 / inject_Z (Z.of_nat frames)) 1).

End Crowd.

(** ** Colour palette (lines 33 to 46) *)

Definition color_palettes : list string :=
  [ "Set1"; "Set2"; "Set3"; "Pastel1"; "Pastel2"; "tab10"; "tab20";
    "Paired"; "Dark2"; "Accent"; "coolwarm"; "Spectral"; "YlGnBu" ].

(** [cmap_index] is what [int(input(...))] returned, [None] when it raised.
    The bare [except] catches whatever the [try] block raises, an index out
    of range included, and sets the default. *)
Definition palette_name (cmap_index : option Z) : string :=
  match cmap_index with
  | Some i =>
      if decide (1 ≤ i ≤ Z.of_nat (length color_palettes))%Z
      then default "Set2" (color_palettes !! Z.to_nat (i - 1))
      else "Set2"
  | None => "Set2"
  end.

(** ** The report (lines 107 to 118) *)

(** [Series.unique()]: the values in order of first appearance. *)
Fixpoint unique (values : list nat) : list nat :=
  match values with
  | [] => []
  | v :: values => v :: filter (λ w, w ≠ v) (unique values)
  end.

(** A row that [iterrows] yields from [summary_df] holds a string beside the
    numbers, so the integers stay integers and print as such; the two floats
    print through [str_float], which is left open. *)
Section Report.
  Variable str_float : float64 → string.

Definition heading (length : nat) : string :=
  "<h3>" +:+ pretty length +:+ "-Feature Combinations</h3><ul>".

Definition item (row : Summary.row) : string :=
  "<li><b>" +:+ Summary.Features row +:+ "</b>: " +:+ pretty (Summary.Count row)
  +:+ " frames (" +:+ str_float (float_of_Q (Summary.Percent row)) +:+ "%), "
  +:+ "Lowest RMSD = " +:+ str_float (Summary.Lowest_RMSD row)
  +:+ " at frame " +:+ pretty (Summary.Frame row) +:+ ".</li>".

Definition summary_lines (sdf : list Summary.row) : list string :=
  foldl (λ summary_lines length,
           if bool_decide (length ∈ exclude_lengths) then summary_lines
           else
             let group := filter (λ s, Summary.Length s = length) sdf in
             ((summary_lines ++ [heading length]) ++ (item <$> group)) ++ ["</ul>"])
        [] (merge_sort (≤) (unique (Summary.Length <$> sdf))).

(** The lines of one section of the report. *)
Definition section_lines (length : nat) (group : list Summary.row) : list string :=
  heading length :: (item <$> group) ++ ["</ul>"].

End Report.

(** ** The stacked chart (line 163) *)

(** [plot_df['Length'] = plot_df['Features'].apply(len)] *)
Definition relength (df : list Summary.row) : list Summary.row :=
  (λ s, Summary.Row (Summary.Features s) (Summary.Lowest_RMSD s) (Summary.Frame s)
                    (Summary.Count s) (String.length (Summary.Features s))
                    (Summary.Percent s)) <$> df.

(** ** Files (lines 174 to 205)

    The regular files under [base_dir] are a [gmap (list string) string]: a
    path is the list of its components below [base_dir], a file is its
    content.  Directories are the prefixes of the paths; the two [makedirs]
    calls create nothing that the script reads. *)

Definition result_files : list string :=
  [ "Feature_Analysis_Report.pdf"; "Feature_PieChart.png"; "Feature_BarChart.png";
    "Feature_StackedBarChart.png"; "Feature_Summary_Report.html" ].

(** [shutil.move(src, dst)] and [shutil.copy2(src, dst)] of a regular file
    onto a path that is no directory: what [dst] held is replaced. *)
Definition move (src dst : list string) (fs : gmap (list string) string)
  : gmap (list string) string :=
  match fs !! src with
  | Some content => <[dst := content]> (delete src fs)
  | None => fs
  end.

Definition copy2 (src dst : list string) (fs : gmap (list string) string)
  : gmap (list string) string :=
  match fs !! src with
  | Some content => <[dst := content]> fs
  | None => fs
  end.

(** Lines 174 to 189. *)
Definition organize_outputs (fs : gmap (list string) string) : gmap (list string) string :=
  foldl (λ fs file,
           let src := [file] in
           let dst := ["DYNOPHORE_RESULTS"; file] in
           if bool_decide (is_Some (fs !! src)) then move src dst fs else fs)
        fs result_files.

(** Lines 197 to 205: the files after the loop, and what the loop printed. *)
Definition hypo_file (frame_id : Z) : string := pretty frame_id +:+ "_hypo.phypo".

Definition copy_best_hypotheses (filtered_summary : list Summary.row)
    (fs : gmap (list string) string) : gmap (list string) string * list string :=
  foldl (λ '(fs, printed) row,
           let frame_id := Summary.Frame row in
           let src_path := ["DYNOPHORE_ANALYSIS"; "saved_HYPOTHESIS"; hypo_file frame_id] in
           let dst_path := ["BEST_HYPOTHESES"; hypo_file frame_id] in
           if bool_decide (is_Some (fs !! src_path))
           then (copy2 src_path dst_path fs, printed)
           else (fs, printed ++ ["Warning: " +:+ hypo_file frame_id
                                  +:+ " not found in saved_HYPOTHESIS."]))
        (fs, []) filtered_summary.

(** ** Vocabulary of the further properties *)

(** No character of [s] is a digit. *)
Fixpoint digit_free (s : string) : bool :=
  match s with
  | EmptyString => true
  | String c s' => negb (is_digit c) && digit_free s'
  end.

(** The saved hypothesis of the representative frame of [row], and the line
    printed when there is none. *)
Definition saved (fs : gmap (list string) string) (row : Summary.row) : option string :=
  fs !! ["DYNOPHORE_ANALYSIS"; "saved_HYPOTHESIS"; hypo_file (Summary.Frame row)].

Definition hypothesis_warning (row : Summary.row) : string :=
  "Warning: " +:+ hypo_file (Summary.Frame row) +:+ " not found in saved_HYPOTHESIS.".

(** * Properties *)

(** ** Lists *)

Lemma Forall2_elem_of_r {A B} (R : A → B → Prop) l k y :
  Forall2 R l k → y ∈ k → ∃ x, x ∈ l ∧ R x y.
Proof.
  intros HF [i Hi]%list_elem_of_lookup.
  destruct (Forall2_lookup_r _ _ _ _ _ HF Hi) as (x & Hx & HR).
  exists x. split; [|done]. apply list_elem_of_lookup; eauto.
Qed.

Lemma Forall2_elem_of_l {A B} (R : A → B → Prop) l k x :
  Forall2 R l k → x ∈ l → ∃ y, y ∈ k ∧ R x y.
Proof.
  intros HF [i Hi]%list_elem_of_lookup.
  destruct (Forall2_lookup_l _ _ _ _ _ HF Hi) as (y & Hy & HR).
  exists y. split; [|done]. apply list_elem_of_lookup; eauto.
Qed.

Lemma length_filter_split {A} (keep : A → Prop) `{!∀ x, Decision (keep x)} (l : list A) :
  length (filter keep l) + length (filter (λ x, ¬ keep x) l) = length l.
Proof.
  induction l as [|x l IH]; [done|].
  rewrite !filter_cons. destruct (decide (keep x)).
  - rewrite decide_False by tauto. simpl. lia.
  - rewrite decide_True by done. simpl. lia.
Qed.

Lemma length_remove_dups_le {A} `{!EqDecision A} (l : list A) :
  length (remove_dups l) ≤ length l.
Proof. induction l as [|x l IH]; simpl; [done|]. case_decide; simpl; lia. Qed.

Lemma remove_dups_NoDup {A} `{!EqDecision A} (l : list A) :
  NoDup l → remove_dups l = l.
Proof.
  induction 1 as [|x l Hx _ IH]; simpl; [done|].
  case_decide; [done|]. by rewrite IH.
Qed.

Lemma list_to_set_remove_dups_size (ids : list Z) :
  size (list_to_set ids : gset Z) = length (remove_dups ids).
Proof.
  rewrite <-(size_list_to_set (C:=gset Z) (remove_dups ids)) by apply NoDup_remove_dups.
  f_equal. apply set_eq. intros x. by rewrite !elem_of_list_to_set, elem_of_remove_dups.
Qed.

(** ** The loop over the feature tables *)

Lemma load_one_map st f :
  frame_feature_map (load_one st f) =
    match parsed f with
    | Some (frame_id, sig) => <[frame_id := sig]> (frame_feature_map st)
    | None => frame_feature_map st
    end.
Proof.
  unfold load_one, parsed.
  destruct (frame_id_of f); [|done]. by destruct (features_clean_of f).
Qed.

Lemma load_one_stdout st f :
  stdout (load_one st f) = stdout st ++ option_list (warning f).
Proof.
  unfold load_one, warning.
  destruct (frame_id_of f); simpl; [|by rewrite app_nil_r].
  destruct (features_clean_of f); simpl; [done|by rewrite app_nil_r].
Qed.

Lemma load_snoc files f :
  load_feature_tables (files ++ [f]) = load_one (load_feature_tables files) f.
Proof. unfold load_feature_tables. apply foldl_snoc. Qed.

(** One line per source that raised, in the order of the sources. *)
Lemma load_stdout files : stdout (load_feature_tables files) = omap warning files.
Proof.
  induction files as [|f files IH] using rev_ind; [done|].
  rewrite load_snoc, load_one_stdout, IH, omap_app. f_equal.
Qed.

(** The keys of the dictionary are the frame indices of the sources that
    parsed. *)
Lemma load_dom files :
  dom (frame_feature_map (load_feature_tables files))
  = list_to_set (omap parsed files).*1.
Proof.
  induction files as [|f files IH] using rev_ind.
  - simpl. apply dom_empty_L.
  - rewrite load_snoc, load_one_map, omap_app, fmap_app, list_to_set_app_L, <-IH.
    simpl. destruct (parsed f) as [[frame_id sig]|]; simpl.
    + rewrite dom_insert_L, (right_id_L ∅ (∪)). apply (comm_L (∪)).
    + by rewrite (right_id_L ∅ (∪)).
Qed.

Lemma load_lookup_Some files frame_id sig :
  frame_feature_map (load_feature_tables files) !! frame_id = Some sig →
  ∃ f, f ∈ files ∧ parsed f = Some (frame_id, sig).
Proof.
  induction files as [|f files IH] using rev_ind.
  - cbn. by rewrite lookup_empty.
  - rewrite load_snoc, load_one_map.
    assert (∀ f', f' ∈ files → f' ∈ files ++ [f]) as Hin
      by (intros f' ?; apply elem_of_app; by left).
    destruct (parsed f) as [[id' sig']|] eqn:E.
    + destruct (decide (id' = frame_id)) as [->|Hne].
      * rewrite lookup_insert_eq. intros [= ->]. exists f.
        split; [|done]. apply elem_of_app. right. left.
      * rewrite lookup_insert_ne by done. intros (f' & ? & ?)%IH. exists f'. auto.
    + intros (f' & ? & ?)%IH. exists f'. auto.
Qed.

(** The last source of a frame index is the one whose signature stays. *)
Lemma load_last_wins files1 f files2 frame_id sig :
  parsed f = Some (frame_id, sig) →
  frame_id ∉ (omap parsed files2).*1 →
  frame_feature_map (load_feature_tables (files1 ++ f :: files2)) !! frame_id = Some sig.
Proof.
  intros Hf. induction files2 as [|f' files2 IH] using rev_ind; intros Hlater.
  - rewrite load_snoc, load_one_map, Hf. apply lookup_insert_eq.
  - rewrite app_comm_cons, app_assoc, load_snoc, load_one_map.
    rewrite omap_app, fmap_app in Hlater.
    apply not_elem_of_app in Hlater as [Hlater Hf'].
    destruct (parsed f') as [[id' sig']|] eqn:E; [|by apply IH].
    rewrite lookup_insert_ne; [by apply IH|].
    intros ->. apply Hf'. simpl. rewrite E. simpl. left.
Qed.

Lemma load_size files :
  size (frame_feature_map (load_feature_tables files))
  = length (remove_dups (omap parsed files).*1).
Proof.
  rewrite <-list_to_set_remove_dups_size, <-load_dom. symmetry. apply size_dom.
Qed.

(** ** Addition in [int64]

    One more than an integer of the column is the next integer, except at
    the largest one, where the sum wraps to the smallest. *)

Lemma int64_wrap_succ (z : Z) :
  (int64_min ≤ z ≤ int64_max)%Z →
  int64_wrap (z + 1) = if decide (z = int64_max) then int64_min else (z + 1)%Z.
Proof.
  unfold int64_wrap, int64_min, int64_max. intros Hz.
  case_decide as Hmax.
  - subst z. reflexivity.
  - rewrite Z.mod_small by lia. lia.
Qed.

Lemma int64_wrap_succ_sentinel (z : Z) :
  (int64_min ≤ z ≤ int64_max)%Z → int64_wrap (z + 1) = 5002%Z ↔ z = 5001%Z.
Proof.
  intros Hz. rewrite (int64_wrap_succ z Hz). case_decide as Hmax.
  - subst z. split; intros H; vm_compute in H; discriminate H.
  - lia.
Qed.

(** ** The rows of [rmsd_df] *)

Section Merger.
  Context (P : Pandas).
  Implicit Types (rows : list (cell P * cell P)) (m : gmap Z string).

Lemma elem_of_labelled_drop rows i c1 c2 :
  (i, c1, c2) ∈ drop 1 (labelled rows) ↔ 1 ≤ i ∧ rows !! i = Some (c1, c2).
Proof.
  unfold labelled. rewrite list_elem_of_lookup. split.
  - intros [j Hj]. rewrite lookup_drop, list_lookup_imap in Hj.
    destruct (rows !! (1 + j)) as [[a b]|] eqn:E; simplify_eq/=.
    split; [lia|done].
  - intros [Hi Hr]. exists (i - 1).
    rewrite lookup_drop, list_lookup_imap.
    replace (1 + (i - 1)) with i by lia. by rewrite Hr.
Qed.

(** [rmsd_df] is what remains of the converted rows once the excluded frame
    is filtered out. *)
Lemma rmsd_df_Some rows m df :
  rmsd_df P rows m = Some df →
  ∃ every,
    Forall2 (derived m) (drop 1 (labelled rows)) every ∧
    df = filter (λ r, Rmsd.Frame_ID r ≠ 5002%Z) every.
Proof.
  unfold rmsd_df. fold (labelled rows).
  generalize (drop 1 (labelled rows)). intros df0 H.
  destruct (mapM _ df0) as [df1|] eqn:E1; simplify_eq/=.
  destruct (mapM _ df1) as [df2|] eqn:E2; simplify_eq/=.
  apply mapM_Some in E1, E2.
  exists ((λ '(i, f, x),
             Rmsd.Row i f x (int64_wrap (f + 1))
                      (default "-" (m !! int64_wrap (f + 1)))) <$> df2).
  split.
  - clear -E1 E2. revert df2 E2.
    induction E1 as [|[[i c1] c2] [[i1 f1] c2'] df0 df1 H1 _ IH];
      intros df2 E2; inversion E2 as [|? [[i2 f2] x2] ? df2' H2 E2']; subst; simpl.
    + constructor.
    + constructor; [|by apply IH].
      destruct (astype_int P c1) eqn:?; simplify_eq/=.
      destruct (astype_float P c2') eqn:?; simplify_eq/=.
      by repeat split.
  - clear. induction df2 as [|[[i f] x] df2 IH]; [done|].
    rewrite !fmap_cons, !filter_cons. simpl.
    destruct (decide (int64_wrap (f + 1) ≠ 5002%Z)); [rewrite fmap_cons; f_equal|]; exact IH.
Qed.

Lemma Forall2_derived_labels m (ts : list (nat * cell P * cell P)) every :
  Forall2 (derived m) ts every → Rmsd.label <$> every = (λ t, t.1.1) <$> ts.
Proof.
  induction 1 as [|t r ts every (Hl & _) _ IH]; [done|].
  rewrite !fmap_cons. by f_equal.
Qed.

Lemma labelled_labels rows : (λ t, t.1.1) <$> labelled rows = seq 0 (length rows).
Proof.
  unfold labelled. apply list_eq. intros i.
  rewrite list_lookup_fmap, list_lookup_imap.
  destruct (rows !! i) as [r|] eqn:E; simpl.
  - symmetry. apply lookup_seq. split; [done|]. by eapply lookup_lt_Some.
  - symmetry. apply lookup_seq_ge. by apply lookup_ge_None.
Qed.

(** The index labels of [rmsd_df] are distinct. *)
Lemma rmsd_df_labels_NoDup rows m df :
  rmsd_df P rows m = Some df → NoDup (Rmsd.label <$> df).
Proof.
  intros (every & HF & ->)%rmsd_df_Some.
  eapply sublist_NoDup; [|apply fmap_sublist, sublist_filter].
  rewrite (Forall2_derived_labels _ _ _ HF), fmap_drop, labelled_labels.
  eapply sublist_NoDup; [apply NoDup_seq|apply sublist_drop].
Qed.

(** Where a row of [rmsd_df] comes from. *)
Lemma rmsd_df_elem rows m df r :
  rmsd_df P rows m = Some df → r ∈ df →
  ∃ c1 c2, 1 ≤ Rmsd.label r ∧ rows !! Rmsd.label r = Some (c1, c2) ∧
           derived m (Rmsd.label r, c1, c2) r ∧ Rmsd.Frame_ID r ≠ 5002%Z.
Proof.
  intros (every & HF & ->)%rmsd_df_Some [Hid Hr]%list_elem_of_filter.
  destruct (Forall2_elem_of_r _ _ _ _ HF Hr) as ([[i c1] c2] & Ht & Hd).
  apply elem_of_labelled_drop in Ht as [Hi Hrow].
  pose proof Hd as (Hl & _). simpl in Hl. subst i.
  by exists c1, c2.
Qed.

(** Which rows of the trajectory reach [rmsd_df]. *)
Lemma rmsd_df_complete rows m df i c1 c2 k :
  rmsd_df P rows m = Some df →
  1 ≤ i → rows !! i = Some (c1, c2) → astype_int P c1 = Some k → k ≠ 5001%Z →
  ∃ r, r ∈ df ∧ Rmsd.label r = i ∧ Rmsd.Frame r = k ∧
       Rmsd.Frame_ID r = int64_wrap (k + 1).
Proof.
  intros (every & HF & ->)%rmsd_df_Some Hi Hrow Hk Hne.
  assert ((i, c1, c2) ∈ drop 1 (labelled rows)) as Ht by (by apply elem_of_labelled_drop).
  destruct (Forall2_elem_of_l _ _ _ _ HF Ht) as (r & Hr & Hl & Hf & _ & Hid & _).
  simpl in *. assert (Rmsd.Frame r = k) as Hfr by congruence.
  exists r. rewrite Hid, Hfr. repeat split; [|done..].
  apply list_elem_of_filter. split; [|done]. rewrite Hid, Hfr.
  by rewrite (int64_wrap_succ_sentinel k (astype_int_int64 P c1 k Hk)).
Qed.

End Merger.

(** ** The hash table of [value_counts] *)

Lemma held_count_value v acc w :
  held (count_value v acc) w = held acc w + (if decide (v = w) then 1 else 0).
Proof.
  unfold held. induction acc as [|[u c] acc IH]; simpl.
  - rewrite filter_cons, filter_nil. simpl. case_decide; simpl; lia.
  - destruct (decide (v = u)) as [->|Hvu].
    + rewrite !filter_cons. simpl. case_decide; simpl; lia.
    + rewrite !filter_cons. simpl.
      destruct (decide (u = w)); simpl; rewrite IH; lia.
Qed.

Lemma count_value_keys v acc :
  (count_value v acc).*1 = if decide (v ∈ acc.*1) then acc.*1 else acc.*1 ++ [v].
Proof.
  induction acc as [|[u c] acc IH].
  - rewrite decide_False by apply not_elem_of_nil. done.
  - cbn [count_value]. destruct (decide (v = u)) as [->|Hvu]; rewrite !fmap_cons; cbn [fst].
    + rewrite decide_True by left. done.
    + rewrite IH. destruct (decide (v ∈ acc.*1)) as [Hin|Hin].
      * rewrite decide_True by (by right). done.
      * rewrite decide_False; [done|]. intros [?|?]%elem_of_cons; done.
Qed.

Lemma count_value_positive v acc :
  Forall (λ p, 0 < p.2) acc → Forall (λ p, 0 < p.2) (count_value v acc).
Proof.
  induction 1 as [|[u c] acc Hc Hacc IH]; simpl.
  - repeat constructor.
  - case_decide; constructor; simpl in *; auto with lia.
Qed.

Lemma count_value_sum v acc :
  sum_list_with snd (count_value v acc) = S (sum_list_with snd acc).
Proof.
  induction acc as [|[u c] acc IH]; simpl; [done|].
  case_decide; simpl; lia.
Qed.

Lemma occurrences_snoc w values v :
  occurrences w (values ++ [v]) = occurrences w values + (if decide (v = w) then 1 else 0).
Proof.
  unfold occurrences. rewrite filter_app, length_app, filter_cons, filter_nil.
  case_decide; simpl; lia.
Qed.

Lemma occurrences_positive w values : 0 < occurrences w values ↔ w ∈ values.
Proof.
  unfold occurrences. split.
  - intros H. destruct (filter (λ v, v = w) values) as [|v l] eqn:E; simpl in H; [lia|].
    assert (v ∈ filter (λ v, v = w) values) as [-> ?]%list_elem_of_filter; [|done].
    rewrite E. left.
  - intros H. assert (w ∈ filter (λ v, v = w) values) as Hin
      by (by apply list_elem_of_filter).
    destruct (filter (λ v, v = w) values); [by apply elem_of_nil in Hin|simpl; lia].
Qed.

Lemma occurrences_fmap_filter {A} (f : A → string) (keep : A → Prop)
    `{!∀ x, Decision (keep x)} (l : list A) w :
  (∀ x, f x = w → keep x) →
  occurrences w (f <$> filter keep l) = length (filter (λ x, f x = w) l).
Proof.
  intros HQ. unfold occurrences. induction l as [|x l IH]; [done|].
  rewrite !filter_cons. destruct (decide (f x = w)) as [Hx|Hx].
  - rewrite decide_True by auto. rewrite fmap_cons, filter_cons, decide_True by done.
    simpl. by rewrite IH.
  - case_decide; [rewrite fmap_cons, filter_cons, decide_False by done|]; done.
Qed.

(** What the hash table holds after a pass over [values]: one entry per
    distinct value, with the number of its occurrences. *)
Lemma value_count_spec values :
  NoDup (value_count values).*1 ∧
  Forall (λ p, 0 < p.2) (value_count values) ∧
  (∀ w, held (value_count values) w = occurrences w values) ∧
  sum_list_with snd (value_count values) = length values.
Proof.
  unfold value_count. induction values as [|v values IH] using rev_ind.
  - simpl. repeat split; [constructor|constructor|done..].
  - rewrite foldl_snoc. destruct IH as (Hnd & Hpos & Hheld & Hsum).
    repeat split.
    + rewrite count_value_keys. case_decide; [done|].
      apply NoDup_app. repeat split; [done| |apply NoDup_singleton].
      intros x Hx ->%list_elem_of_singleton. done.
    + by apply count_value_positive.
    + intros w. by rewrite held_count_value, Hheld, occurrences_snoc.
    + rewrite count_value_sum, Hsum, length_app. simpl. lia.
Qed.

Lemma held_positive acc w :
  0 < held acc w → w ∈ acc.*1.
Proof.
  unfold held. induction acc as [|[u d] acc IH]; simpl; [lia|].
  rewrite filter_cons. simpl. case_decide; simpl; [subst; left|right; auto].
Qed.

Lemma held_elem acc w c :
  NoDup acc.*1 → (w, c) ∈ acc → held acc w = c.
Proof.
  induction acc as [|[u d] acc IH]; intros Hnd Hin.
  - by apply elem_of_nil in Hin.
  - rewrite fmap_cons in Hnd. apply NoDup_cons in Hnd as [Hu Hnd].
    unfold held in *. rewrite filter_cons. cbn [fst].
    apply elem_of_cons in Hin as [Heq|Hin].
    + injection Heq as -> ->. rewrite decide_True by done.
      cbn [sum_list_with snd].
      destruct (decide (0 < held acc u)) as [Hpos|Hz].
      * by apply held_positive in Hpos.
      * unfold held in Hz. lia.
    + rewrite decide_False; [by apply IH|].
      intros ->. apply Hu. apply list_elem_of_fmap. by exists (w, c).
Qed.

(** ** The rows of [feature_counts] *)

Section Aggregator.
  Context (P : Pandas).
  Implicit Types (df : list Rmsd.row).

Lemma value_counts_perm values : value_counts P values ≡ₚ value_count values.
Proof. apply sort_desc_perm. Qed.

Lemma value_counts_elem values w c :
  (w, c) ∈ value_counts P values ↔ w ∈ values ∧ c = occurrences w values.
Proof.
  rewrite value_counts_perm.
  destruct (value_count_spec values) as (Hnd & Hpos & Hheld & _). split.
  - intros Hin. pose proof (held_elem _ _ _ Hnd Hin) as Hc. rewrite Hheld in Hc.
    split; [|done]. apply occurrences_positive. rewrite Hc.
    rewrite Forall_forall in Hpos. apply (Hpos _ Hin).
  - intros [Hw ->]. apply occurrences_positive in Hw. rewrite <-Hheld in Hw.
    apply held_positive, list_elem_of_fmap in Hw as ([w' c] & Heq & Hin).
    simpl in Heq. subst w'.
    by rewrite <-Hheld, (held_elem _ _ _ Hnd Hin).
Qed.

Lemma value_counts_NoDup values : NoDup (value_counts P values).*1.
Proof.
  rewrite value_counts_perm. by destruct (value_count_spec values).
Qed.

Lemma value_counts_sum values :
  sum_list_with snd (value_counts P values) = length values.
Proof.
  rewrite value_counts_perm. by destruct (value_count_spec values) as (_ & _ & _ & ?).
Qed.

(** A row of [feature_counts] stands for a signature that some frame
    carries, and counts the frames that carry it. *)
Lemma feature_counts_elem df g :
  g ∈ feature_counts P df →
  Counts.Features g ≠ "-" ∧
  (∃ r, r ∈ df ∧ Rmsd.Features r = Counts.Features g) ∧
  Counts.Count g = length (members (Counts.Features g) df) ∧
  Counts.Percent g =
    (100 * inject_Z (Z.of_nat (Counts.Count g)) / inject_Z (Z.of_nat (length df)))%Q ∧
  Counts.Length g = String.length (Counts.Features g).
Proof.
  unfold feature_counts, total_frames, members. rewrite list_elem_of_fmap.
  intros ([feat c] & -> & [Hin ->]%value_counts_elem). simpl.
  apply list_elem_of_fmap in Hin as (r & -> & [Hr Hdf]%list_elem_of_filter).
  rewrite occurrences_fmap_filter by (by intros x ->).
  repeat split; [done|by exists r].
Qed.

(** Every signature that a frame carries has its row. *)
Lemma feature_counts_complete df r :
  r ∈ df → Rmsd.Features r ≠ "-" →
  ∃ g, g ∈ feature_counts P df ∧ Counts.Features g = Rmsd.Features r.
Proof.
  intros Hr Hf. unfold feature_counts.
  set (values := Rmsd.Features <$> filter (λ r, Rmsd.Features r ≠ "-") df).
  assert ((Rmsd.Features r, occurrences (Rmsd.Features r) values) ∈ value_counts P values)
    as Hin.
  { apply value_counts_elem. split; [|done].
    apply list_elem_of_fmap. exists r. split; [done|]. by apply list_elem_of_filter. }
  eexists. split; [apply list_elem_of_fmap; eexists; split; [|exact Hin]; reflexivity|].
  done.
Qed.

(** No signature has two rows. *)
Lemma feature_counts_NoDup df : NoDup (Counts.Features <$> feature_counts P df).
Proof.
  unfold feature_counts. rewrite <-list_fmap_compose.
  erewrite list_fmap_ext; [apply value_counts_NoDup|].
  by intros i [feat c] _.
Qed.

Lemma feature_counts_sum df :
  sum_list_with Counts.Count (feature_counts P df) = length (matched df).
Proof.
  unfold feature_counts, matched.
  set (values := Rmsd.Features <$> filter (λ r, Rmsd.Features r ≠ "-") df).
  transitivity (sum_list_with snd (value_counts P values)).
  - generalize (value_counts P values). intros l.
    induction l as [|[feat c] l IH]; [done|].
    rewrite fmap_cons. cbn [sum_list_with Counts.Count snd]. by rewrite IH.
  - rewrite value_counts_sum. apply length_fmap.
Qed.

Lemma matched_unmatched df : length (matched df) + length (unmatched df) = length df.
Proof.
  unfold matched, unmatched.
  rewrite <-(length_filter_split (λ r, Rmsd.Features r ≠ "-") df).
  f_equal. f_equal. apply list_filter_iff. intros r.
  destruct (decide (Rmsd.Features r = "-")); tauto.
Qed.

End Aggregator.

(** ** The row of the minimum *)

Lemma first_min_spec best l : first_minimum (best :: l) (first_min best l).
Proof.
  revert best. induction l as [|r l IH]; intros best.
  - exists 0. split; [done|]. split.
    + intros r' ->%list_elem_of_singleton. apply Qle_refl.
    + intros j r' Hj. lia.
  - simpl. destruct (Qle_bool (Rmsd.RMSD best) (Rmsd.RMSD r)) eqn:E.
    + apply Qle_bool_iff in E.
      destruct (IH best) as (i & Hi & Hall & Hlt).
      assert (Rmsd.RMSD (first_min best l) <= Rmsd.RMSD best)%Q as Hb by (apply Hall; left).
      destruct i as [|i].
      * simpl in Hi. injection Hi as Hi. rewrite <-Hi in *.
        exists 0. split; [done|]. split; [|intros; lia].
        intros r' [->|[->|Hr']%elem_of_cons]%elem_of_cons.
        -- apply Qle_refl.
        -- done.
        -- apply Hall. by right.
      * exists (S (S i)). split; [done|]. split.
        -- intros r' [->|[->|Hr']%elem_of_cons]%elem_of_cons.
           ++ done.
           ++ by eapply Qle_trans.
           ++ apply Hall. by right.
        -- intros [|[|j]] r' Hj Hr'; simplify_eq/=.
           ++ apply (Hlt 0); [lia|done].
           ++ eapply Qlt_le_trans; [|exact E]. apply (Hlt 0); [lia|done].
           ++ apply (Hlt (S j)); [lia|done].
    + assert (Rmsd.RMSD r < Rmsd.RMSD best)%Q as Hrb.
      { apply Qnot_le_lt. intros H%Qle_bool_iff. congruence. }
      destruct (IH r) as (i & Hi & Hall & Hlt).
      assert (Rmsd.RMSD (first_min r l) <= Rmsd.RMSD r)%Q as Hr by (apply Hall; left).
      exists (S i). split; [done|]. split.
      * intros r' [->|Hr']%elem_of_cons; [|by apply Hall].
        apply Qlt_le_weak. by eapply Qle_lt_trans.
      * intros [|j] r' Hj Hr'; simplify_eq/=.
        -- by eapply Qle_lt_trans.
        -- apply (Hlt j); [lia|done].
Qed.

(** With distinct labels, [.loc] on the label of a row gives that row back. *)
Lemma loc_unique subset i r :
  NoDup (Rmsd.label <$> subset) → subset !! i = Some r →
  loc subset (Rmsd.label r) = Some r.
Proof.
  intros Hnd Hi. unfold loc.
  assert (list_find (λ r', Rmsd.label r' = Rmsd.label r) subset = Some (i, r)) as ->; [|done].
  apply list_find_Some. split; [done|]. split; [done|].
  intros j y Hj Hlt Hy.
  assert (i = j); [|lia].
  apply (NoDup_lookup _ _ _ (Rmsd.label r) Hnd); rewrite list_lookup_fmap.
  - by rewrite Hi.
  - by rewrite Hj, <-Hy.
Qed.

Lemma members_labels_NoDup feat df :
  NoDup (Rmsd.label <$> df) → NoDup (Rmsd.label <$> members feat df).
Proof.
  intros H. eapply sublist_NoDup; [exact H|]. apply fmap_sublist, sublist_filter.
Qed.

Lemma summary_record_Some df row s :
  NoDup (Rmsd.label <$> df) →
  summary_record df row = Some s →
  ∃ min_row, first_minimum (members (Counts.Features row) df) min_row ∧
             s = summary_of row min_row.
Proof.
  intros Hnd. unfold summary_record. fold (members (Counts.Features row) df).
  pose proof (members_labels_NoDup (Counts.Features row) df Hnd) as Hnd'.
  destruct (members (Counts.Features row) df) as [|r l] eqn:E; [done|].
  cbn [idxmin mbind option_bind].
  pose proof (first_min_spec r l) as Hfm.
  destruct Hfm as (i & Hi & Hrest).
  rewrite (loc_unique _ i _ Hnd' Hi). cbn.
  intros [= <-]. exists (first_min r l). split; [by exists i|done].
Qed.

Lemma summary_record_defined df row :
  NoDup (Rmsd.label <$> df) →
  members (Counts.Features row) df ≠ [] →
  is_Some (summary_record df row).
Proof.
  intros Hnd Hne. unfold summary_record. fold (members (Counts.Features row) df).
  pose proof (members_labels_NoDup (Counts.Features row) df Hnd) as Hnd'.
  destruct (members (Counts.Features row) df) as [|r l] eqn:E; [done|].
  cbn [idxmin mbind option_bind].
  destruct (first_min_spec r l) as (i & Hi & _).
  rewrite (loc_unique _ i _ Hnd' Hi). by eexists.
Qed.

(** ** The rows of [summary_df] *)

Section SummaryRows.
  Context (P : Pandas).
  Implicit Types (df : list Rmsd.row) (sdf : list Summary.row).

Lemma summary_df_Some df sdf :
  summary_df P df = Some sdf →
  ∃ recs, feature_counts P df ≠ [] ∧
          summary_records df (feature_counts P df) = Some recs ∧
          sdf = sort_desc (sort_values_order P) Summary.Count recs.
Proof.
  unfold summary_df. destruct (feature_counts P df) as [|g fc] eqn:E; [done|].
  destruct (summary_records df (g :: fc)) as [recs|]; [|done].
  intros [= <-]. by exists recs.
Qed.

Lemma summary_records_elem df fc recs s :
  NoDup (Rmsd.label <$> df) →
  summary_records df fc = Some recs → s ∈ recs →
  ∃ g min_row, g ∈ fc ∧
    first_minimum (members (Counts.Features g) df) min_row ∧ s = summary_of g min_row.
Proof.
  intros Hnd HF%mapM_Some Hs.
  destruct (Forall2_elem_of_r _ _ _ _ HF Hs) as (g & Hg & Hrec).
  destruct (summary_record_Some _ _ _ Hnd Hrec) as (min_row & ? & ?).
  by exists g, min_row.
Qed.

(** A row of [summary_df] is the dictionary built for a row of
    [feature_counts] and the first row of its group that holds the least
    RMSD. *)
Lemma summary_df_elem df sdf s :
  NoDup (Rmsd.label <$> df) →
  summary_df P df = Some sdf → s ∈ sdf →
  ∃ g min_row, g ∈ feature_counts P df ∧
    first_minimum (members (Counts.Features g) df) min_row ∧ s = summary_of g min_row.
Proof.
  intros Hnd (recs & _ & Hrecs & ->)%summary_df_Some Hs.
  rewrite sort_desc_perm in Hs. by eapply summary_records_elem.
Qed.

(** The loop that fills [summary_records] raises nothing, and the script
    reaches [summary_df] as soon as some frame has a signature. *)
Lemma summary_records_defined df :
  NoDup (Rmsd.label <$> df) →
  is_Some (summary_records df (feature_counts P df)).
Proof.
  intros Hnd. apply mapM_is_Some, Forall_forall. intros g Hg.
  apply summary_record_defined; [done|].
  destruct (feature_counts_elem P df g Hg) as (_ & (r & Hr & Hf) & _).
  intros Hnil. eapply (filter_nil_not_elem_of _ _ r Hnil); done.
Qed.

Lemma summary_df_defined df :
  NoDup (Rmsd.label <$> df) → matched df ≠ [] → is_Some (summary_df P df).
Proof.
  intros Hnd Hm. unfold summary_df.
  destruct (summary_records_defined df Hnd) as [recs Hrecs].
  destruct (feature_counts P df) as [|g fc] eqn:E.
  - destruct (matched df) as [|r l] eqn:Em; [done|].
    assert (r ∈ matched df) as [Hf Hr]%list_elem_of_filter by (rewrite Em; left).
    destruct (feature_counts_complete P df r Hr Hf) as (g & Hg & _).
    rewrite E in Hg. by apply elem_of_nil in Hg.
  - rewrite Hrecs. by eexists.
Qed.

End SummaryRows.

Lemma summary_record_Count df row s :
  summary_record df row = Some s → Summary.Count s = Counts.Count row.
Proof.
  unfold summary_record. destruct (idxmin _) as [lbl|]; [|done]. simpl.
  destruct (loc _ lbl) as [min_row|]; [|done]. simpl. by intros [= <-].
Qed.

Lemma summary_records_Count df fc recs :
  summary_records df fc = Some recs →
  sum_list_with Summary.Count recs = sum_list_with Counts.Count fc.
Proof.
  intros HF%mapM_Some. induction HF as [|g s fc recs Hs _ IH]; [done|].
  simpl. by rewrite IH, (summary_record_Count _ _ _ Hs).
Qed.

(** ** The order of the records *)

Lemma StronglySorted_lookup {A} (R : relation A) (l : list A) i j a b :
  StronglySorted R l → i < j → l !! i = Some a → l !! j = Some b → R a b.
Proof.
  intros Hl. revert i j. induction Hl as [|x l _ IH Hx]; intros i j Hij Hi Hj; [done|].
  destruct j as [|j]; [lia|]. simpl in Hj.
  destruct i as [|i]; simpl in Hi.
  - injection Hi as ->. rewrite Forall_forall in Hx.
    apply Hx. by eapply list_elem_of_lookup_2.
  - apply (IH i j); [lia|done..].
Qed.

(** Two lists in descending order of a key that hold the same rows differ
    only in the order of rows with equal keys. *)
Lemma descending_order_kept {A} (key : A → nat) (l1 l2 : list A) i j a b :
  l1 ≡ₚ l2 → descending Nat.le key l1 → descending Nat.le key l2 →
  i < j → l1 !! i = Some a → l1 !! j = Some b → key a ≠ key b →
  ∃ i' j', i' < j' ∧ l2 !! i' = Some a ∧ l2 !! j' = Some b.
Proof.
  intros Hperm H1 H2 Hij Hi Hj Hne.
  pose proof (StronglySorted_lookup _ _ _ _ _ _ H1 Hij Hi Hj) as Hle. simpl in Hle.
  assert (a ∈ l2) as [i' Hi']%list_elem_of_lookup
    by (rewrite <-Hperm; by eapply list_elem_of_lookup_2).
  assert (b ∈ l2) as [j' Hj']%list_elem_of_lookup
    by (rewrite <-Hperm; by eapply list_elem_of_lookup_2).
  exists i', j'. split; [|done].
  destruct (Nat.lt_trichotomy i' j') as [?|[->|Hlt]]; [done|congruence|].
  pose proof (StronglySorted_lookup _ _ _ _ _ _ H2 Hlt Hj' Hi') as Hge. simpl in Hge. lia.
Qed.

Lemma feature_counts_descending (P : Pandas) df :
  descending Nat.le Counts.Count (feature_counts P df).
Proof.
  unfold feature_counts, descending.
  eapply StronglySorted_fmap; [|apply (sort_desc_sorted (value_counts_order P) snd)].
  by intros [f1 c1] [f2 c2].
Qed.

(** [summary_records] stands in the order of [feature_counts], which is in
    descending order of the counts already. *)
Lemma summary_records_descending (P : Pandas) df recs :
  summary_records df (feature_counts P df) = Some recs →
  descending Nat.le Summary.Count recs.
Proof.
  intros HF%mapM_Some. pose proof (feature_counts_descending P df) as Hfc.
  revert HF Hfc. generalize (feature_counts P df). intros fc HF. unfold descending.
  induction HF as [|g s fc recs Hs HF IH]; intros Hfc; [constructor|].
  apply StronglySorted_cons in Hfc as [Hg Hfc]. constructor; [by apply IH|].
  rewrite (summary_record_Count _ _ _ Hs).
  clear -HF Hg. induction HF as [|g' s' fc recs Hs' _ IH]; [constructor|].
  apply Forall_cons in Hg as [Hg' Hg]. constructor; [|by apply IH].
  by rewrite (summary_record_Count _ _ _ Hs').
Qed.

(** The summary carries the percentage of [feature_counts] rounded to one
    decimal, the count and the length unchanged. *)
Lemma summary_df_columns (P : Pandas) df sdf s :
  summary_df P df = Some sdf → s ∈ sdf →
  ∃ g, g ∈ feature_counts P df ∧
       Summary.Features s = Counts.Features g ∧
       Summary.Count s = Counts.Count g ∧
       Summary.Length s = Counts.Length g ∧
       Summary.Percent s = round (Counts.Percent g) 1.
Proof.
  intros (recs & _ & HF%mapM_Some & ->)%summary_df_Some Hs.
  rewrite sort_desc_perm in Hs.
  destruct (Forall2_elem_of_r _ _ _ _ HF Hs) as (g & Hg & Hrec).
  exists g. split; [done|].
  destruct (feature_counts_elem P df g Hg) as (_ & _ & _ & _ & Hlen).
  revert Hrec. unfold summary_record.
  destruct (idxmin _) as [lbl|]; [|done]. simpl.
  destruct (loc _ lbl) as [min_row|]; [|done]. simpl. by intros [= <-].
Qed.

(** Every signature that a frame of the trajectory carries has its row in
    [summary_df]: the script neither stops nor loses a group. *)
Lemma summary_df_complete (P : Pandas) rows m df r :
  rmsd_df P rows m = Some df → r ∈ df → Rmsd.Features r ≠ "-" →
  ∃ sdf s, summary_df P df = Some sdf ∧ s ∈ sdf ∧ Summary.Features s = Rmsd.Features r.
Proof.
  intros Hdf Hr Hf.
  pose proof (rmsd_df_labels_NoDup P rows m df Hdf) as Hnd.
  destruct (summary_df_defined P df Hnd) as [sdf Hsdf].
  { intros Hnil. eapply (filter_nil_not_elem_of _ _ r Hnil); done. }
  exists sdf.
  destruct (summary_df_Some P df sdf Hsdf) as (recs & _ & HF%mapM_Some & ->).
  destruct (feature_counts_complete P df r Hr Hf) as (g & Hg & Hgf).
  destruct (Forall2_elem_of_l _ _ _ _ HF Hg) as (s & Hs & Hrec).
  exists s. split; [done|]. split; [by rewrite sort_desc_perm|].
  destruct (summary_record_Some _ _ _ Hnd Hrec) as (min_row & _ & ->). done.
Qed.

(** * The claims *)

(** ** C1: the lowest RMSD of a group *)

(** C1, as amended.  For every hypothesis group of the summary, some member
    of the group holds the least RMSD of the group, and the reported
    [Lowest_RMSD] is what [round(min_row['RMSD'], 3)] makes of that least
    RMSD: the float64 that numpy reaches by multiplying the float64 of the
    column by 1000, rounding the product to the nearest integer and dividing
    by 1000. *)
Theorem lowest_rmsd_is_rounded_minimum (P : Pandas) rows m df sdf s :
  rmsd_df P rows m = Some df →
  summary_df P df = Some sdf →
  s ∈ sdf →
  ∃ r, r ∈ members (Summary.Features s) df ∧
       (∀ r', r' ∈ members (Summary.Features s) df → (Rmsd.RMSD r <= Rmsd.RMSD r')%Q) ∧
       Summary.Lowest_RMSD s
       = float64_div
           (np_rint (float64_mul (float_of_Q (Rmsd.RMSD r)) (float_of_Z 1000)))
           (float_of_Z 1000).
Proof.
  intros Hdf Hsdf Hs.
  pose proof (rmsd_df_labels_NoDup P rows m df Hdf) as Hnd.
  destruct (summary_df_elem P df sdf s Hnd Hsdf Hs) as (g & r & _ & (i & Hi & Hmin & _) & ->).
  exists r. simpl. split; [by eapply list_elem_of_lookup_2|].
  split; [done|]. reflexivity.
Qed.

(** The group HB of the five-frame run: its least RMSD is 0.3, and 0.3 is
    reported. *)
Lemma lowest_rmsd_is_rounded_minimum_witness :
  Summary.Lowest_RMSD Scenario.hb = float_of_Q (3 # 10) ∧
  ∃ r, r ∈ members "HB" Scenario.df ∧
       (∀ r', r' ∈ members "HB" Scenario.df → (Rmsd.RMSD r <= Rmsd.RMSD r')%Q) ∧
       Summary.Lowest_RMSD Scenario.hb
       = float64_div
           (np_rint (float64_mul (float_of_Q (Rmsd.RMSD r)) (float_of_Z 1000)))
           (float_of_Z 1000).
Proof.
  split; [reflexivity|].
  apply (lowest_rmsd_is_rounded_minimum pandas_stable Scenario.trajectory Scenario.m
           Scenario.df Scenario.sdf_stable Scenario.hb).
  - vm_compute. reflexivity.
  - vm_compute. reflexivity.
  - apply (list_elem_of_lookup_2 _ 0). reflexivity.
Defined.

(** The rounding is the one of binary64, not the one of the decimals: 0.5015
    and 0.0005 go down although their last digit is 5, because the float64
    of 0.5015 lies below it and because 0.5 lies halfway between 0 and 1;
    2.0005 goes up. *)
Lemma np_round_binary64 :
  np_round (float_of_Q (5015 # 10000)) 3 = float_of_Q (501 # 1000) ∧
  np_round (float_of_Q (20005 # 10000)) 3 = float_of_Q (2001 # 1000) ∧
  np_round (float_of_Q (5 # 10000)) 3 = float_of_Q 0.
Proof. repeat split; vm_compute; reflexivity. Qed.

(** C1 as stated fails.  A trajectory whose only kept frame has RMSD 0.12345
    gives a group with that single member, and the summary reports 0.123 for
    it: the minimum over the members is 0.12345, the reported value is
    another float64, and the number it is equal to is not 0.12345. *)
Lemma lowest_rmsd_not_exact :
  rmsd_df pandas_stable Decimals.trajectory Decimals.m = Some [Decimals.frame] ∧
  summary_df pandas_stable [Decimals.frame] = Some [Decimals.group] ∧
  members (Summary.Features Decimals.group) [Decimals.frame] = [Decimals.frame] ∧
  Summary.Lowest_RMSD Decimals.group = float_of_Q (123 # 1000) ∧
  Summary.Lowest_RMSD Decimals.group ≠ float_of_Q (Rmsd.RMSD Decimals.frame) ∧
  ∃ q, float_value (Summary.Lowest_RMSD Decimals.group) = Some q ∧
       ¬ (q == Rmsd.RMSD Decimals.frame)%Q.
Proof.
  split; [vm_compute; reflexivity|].
  split; [vm_compute; reflexivity|].
  split; [vm_compute; reflexivity|].
  split; [reflexivity|].
  split; [vm_compute; discriminate|].
  eexists. split; [vm_compute; reflexivity|]. vm_compute. discriminate.
Qed.

(** ** C2: the order of the full summary *)

(** C2, as amended.  The full summary holds the dictionaries of
    [summary_records], each once, in descending order of [Count].  The
    records stand in descending order of [Count] before the sort already, so
    two groups of different counts keep their order, and the sort can only
    rearrange groups of equal count.  For those nothing is promised:
    [sort_values] is called with the default sort kind. *)
Theorem summary_sorted_by_count (P : Pandas) df sdf :
  summary_df P df = Some sdf →
  ∃ recs, summary_records df (feature_counts P df) = Some recs ∧
          sdf ≡ₚ recs ∧
          descending Nat.le Summary.Count sdf ∧
          descending Nat.le Summary.Count recs ∧
          ∀ i j a b,
            i < j → recs !! i = Some a → recs !! j = Some b →
            Summary.Count a ≠ Summary.Count b →
            ∃ i' j', i' < j' ∧ sdf !! i' = Some a ∧ sdf !! j' = Some b.
Proof.
  intros (recs & _ & Hrecs & ->)%summary_df_Some.
  pose proof (summary_records_descending P df recs Hrecs) as Hbefore.
  exists recs. split; [done|]. split; [apply sort_desc_perm|].
  split; [apply sort_desc_sorted|]. split; [done|].
  intros i j a b. apply descending_order_kept; [|done|apply sort_desc_sorted].
  symmetry. apply sort_desc_perm.
Qed.

(** The five-frame run: HB, counted twice, stays in front of HBHB and ARHB,
    counted once. *)
Lemma summary_sorted_by_count_witness :
  summary_df pandas_numpy Scenario.df = Some Scenario.sdf_stable ∧
  ∃ recs, summary_records Scenario.df (feature_counts pandas_numpy Scenario.df)
            = Some recs ∧
          Scenario.sdf_stable ≡ₚ recs ∧
          descending Nat.le Summary.Count Scenario.sdf_stable ∧
          descending Nat.le Summary.Count recs ∧
          ∀ i j a b,
            i < j → recs !! i = Some a → recs !! j = Some b →
            Summary.Count a ≠ Summary.Count b →
            ∃ i' j', i' < j' ∧ Scenario.sdf_stable !! i' = Some a ∧
                     Scenario.sdf_stable !! j' = Some b.
Proof.
  split; [vm_compute; reflexivity|].
  apply (summary_sorted_by_count pandas_numpy Scenario.df Scenario.sdf_stable).
  vm_compute. reflexivity.
Defined.

(** C2 as stated fails.  In the run of 301 frames every group counts one
    frame.  The groups of the frames 208 and 20 stand in this order in
    [summary_records], at the positions 1 and 207, and in the opposite order
    in the summary, at the positions 151 and 1. *)
Lemma summary_ties_reordered :
  rmsd_df pandas_numpy Crowd.trajectory Crowd.m = Some Crowd.df ∧
  ∃ recs sdf a b i j i' j',
    summary_records Crowd.df (feature_counts pandas_numpy Crowd.df) = Some recs ∧
    summary_df pandas_numpy Crowd.df = Some sdf ∧
    recs !! i = Some a ∧ recs !! j = Some b ∧ i < j ∧
    Summary.Count a = Summary.Count b ∧
    Summary.Features a ≠ Summary.Features b ∧
    sdf !! i' = Some a ∧ sdf !! j' = Some b ∧ j' < i'.
Proof.
  split; [vm_compute; reflexivity|].
  exists (default [] (summary_records Crowd.df (feature_counts pandas_numpy Crowd.df))),
         (default [] (summary_df pandas_numpy Crowd.df)),
         (Crowd.group 207), (Crowd.group 19), 1, 207, 151, 1.
  split; [vm_compute; reflexivity|]. split; [vm_compute; reflexivity|].
  split; [vm_compute; reflexivity|]. split; [vm_compute; reflexivity|].
  split; [lia|]. split; [reflexivity|]. split; [vm_compute; discriminate|].
  split; [vm_compute; reflexivity|]. split; [vm_compute; reflexivity|]. lia.
Qed.

(** ** C3: the counts add up *)

(** C3.  The counts of the hypothesis groups and the number of frames that
    carry the sentinel "-" add up to [total_frames], in [feature_counts] and
    in the summary alike. *)
Theorem counts_cover_all_frames (P : Pandas) (df : list Rmsd.row) :
  sum_list_with Counts.Count (feature_counts P df) + length (unmatched df)
    = total_frames df ∧
  ∀ sdf, summary_df P df = Some sdf →
         sum_list_with Summary.Count sdf + length (unmatched df) = total_frames df.
Proof.
  assert (sum_list_with Counts.Count (feature_counts P df) + length (unmatched df)
          = total_frames df) as H.
  { rewrite feature_counts_sum. apply matched_unmatched. }
  split; [done|].
  intros sdf (recs & _ & Hrecs & ->)%summary_df_Some.
  by rewrite sort_desc_perm, (summary_records_Count _ _ _ Hrecs).
Qed.

(** Five frames: four in three groups, one without a signature. *)
Lemma counts_cover_all_frames_witness :
  sum_list_with Summary.Count Scenario.sdf_stable + length (unmatched Scenario.df)
  = total_frames Scenario.df.
Proof.
  apply (counts_cover_all_frames pandas_stable Scenario.df).
  vm_compute. reflexivity.
Defined.

(** ** C4: the percentage *)

(** C4.  A row of [feature_counts] counts the frames of its signature, and
    its [Percent] is 100 times that count over [total_frames], the number of
    all rows of [rmsd_df], those without a signature included.
    ([summary_df_columns]: the summary shows this value rounded to one
    decimal.) *)
Theorem percent_of_all_frames (P : Pandas) (df : list Rmsd.row) (g : Counts.row) :
  g ∈ feature_counts P df →
  Counts.Count g = length (members (Counts.Features g) df) ∧
  total_frames df = length (matched df) + length (unmatched df) ∧
  Counts.Percent g =
    (100 * inject_Z (Z.of_nat (Counts.Count g)) / inject_Z (Z.of_nat (total_frames df)))%Q.
Proof.
  intros (_ & _ & Hc & Hp & _)%feature_counts_elem.
  split; [done|]. split; [|done]. symmetry. apply matched_unmatched.
Qed.

(** Two frames of five carry HB: 40 percent, although only four frames have
    a signature. *)
Lemma percent_of_all_frames_witness :
  Counts.Count (Counts.Row "HB" 2 (200 # 5) 2) = length (members "HB" Scenario.df) ∧
  total_frames Scenario.df = length (matched Scenario.df) + length (unmatched Scenario.df) ∧
  Counts.Percent (Counts.Row "HB" 2 (200 # 5) 2) =
    (100 * inject_Z (Z.of_nat 2) / inject_Z (Z.of_nat (total_frames Scenario.df)))%Q.
Proof.
  apply (percent_of_all_frames pandas_stable Scenario.df (Counts.Row "HB" 2 (200 # 5) 2)).
  apply (list_elem_of_lookup_2 _ 0). vm_compute. reflexivity.
Defined.

(** ** C5: the representative frame *)

(** C5.  The [Frame] of a group in the summary is the [Frame_ID] of the first
    member of the group, in the row order of [rmsd_df], that holds the least
    RMSD of the group. *)
Theorem representative_frame_first_minimum (P : Pandas) rows m df sdf s :
  rmsd_df P rows m = Some df →
  summary_df P df = Some sdf →
  s ∈ sdf →
  ∃ r, first_minimum (members (Summary.Features s) df) r ∧
       Summary.Frame s = Rmsd.Frame_ID r.
Proof.
  intros Hdf Hsdf Hs.
  pose proof (rmsd_df_labels_NoDup P rows m df Hdf) as Hnd.
  destruct (summary_df_elem P df sdf s Hnd Hsdf Hs) as (g & r & _ & Hmin & ->).
  by exists r.
Qed.

(** Frames 2 and 4 carry HB with the same RMSD 0.3; the summary names
    frame 2. *)
Lemma representative_frame_first_minimum_witness :
  Summary.Frame Scenario.hb = 2%Z ∧
  ∃ r, first_minimum (members "HB" Scenario.df) r ∧
       Summary.Frame Scenario.hb = Rmsd.Frame_ID r.
Proof.
  split; [reflexivity|].
  apply (representative_frame_first_minimum pandas_stable Scenario.trajectory Scenario.m
           Scenario.df Scenario.sdf_stable Scenario.hb).
  - vm_compute. reflexivity.
  - vm_compute. reflexivity.
  - apply (list_elem_of_lookup_2 _ 0). reflexivity.
Defined.

(** ** C6: the frame identifier *)

(** C6, as amended.  Every row of [rmsd_df] comes from a row of the
    trajectory file, and its [Frame_ID] is one more than the frame counter
    that row holds in its first column, in [int64]: the next integer, except
    for the largest counter, whose successor wraps to the smallest integer.
    Every row of the file after the first whose counter [k] converts and is
    not 5001 is a row of [rmsd_df] with that [Frame_ID]. *)
Theorem frame_id_is_frame_plus_one_in_int64 (P : Pandas) rows m df :
  rmsd_df P rows m = Some df →
  (∀ r, r ∈ df →
     Rmsd.Frame_ID r = int64_wrap (Rmsd.Frame r + 1) ∧
     (Rmsd.Frame r ≠ int64_max → Rmsd.Frame_ID r = (Rmsd.Frame r + 1)%Z) ∧
     (Rmsd.Frame r = int64_max → Rmsd.Frame_ID r = int64_min) ∧
     ∃ c1 c2, rows !! Rmsd.label r = Some (c1, c2) ∧
              astype_int P c1 = Some (Rmsd.Frame r) ∧
              astype_float P c2 = Some (Rmsd.RMSD r)) ∧
  (∀ i c1 c2 k,
     1 ≤ i → rows !! i = Some (c1, c2) → astype_int P c1 = Some k → k ≠ 5001%Z →
     ∃ r, r ∈ df ∧ Rmsd.label r = i ∧ Rmsd.Frame r = k ∧
          Rmsd.Frame_ID r = int64_wrap (k + 1) ∧
          (k ≠ int64_max → Rmsd.Frame_ID r = (k + 1)%Z)).
Proof.
  intros Hdf. split.
  - intros r Hr.
    destruct (rmsd_df_elem P rows m df r Hdf Hr) as (c1 & c2 & _ & Hrow & Hd & _).
    destruct Hd as (_ & Hf & Hx & Hid & _).
    pose proof (int64_wrap_succ _ (astype_int_int64 P c1 _ Hf)) as Hwrap.
    split; [done|]. split; [|split; [|by exists c1, c2]].
    + intros Hne. by rewrite Hid, Hwrap, decide_False.
    + intros Heq. by rewrite Hid, Hwrap, decide_True.
  - intros i c1 c2 k Hi Hrow Hk Hne.
    destruct (rmsd_df_complete P rows m df i c1 c2 k Hdf Hi Hrow Hk Hne)
      as (r & Hr & Hl & Hf & Hid).
    exists r. repeat split; [done..|].
    intros Hmax. rewrite Hid, (int64_wrap_succ _ (astype_int_int64 P c1 _ Hk)).
    by rewrite decide_False.
Qed.

Lemma frame_id_is_frame_plus_one_in_int64_witness :
  rmsd_df pandas_stable Scenario.trajectory Scenario.m = Some Scenario.df ∧
  Rmsd.Frame_ID <$> Scenario.df = [1; 2; 3; 4; 5]%Z ∧
  (∀ r, r ∈ Scenario.df →
     Rmsd.Frame_ID r = int64_wrap (Rmsd.Frame r + 1) ∧
     (Rmsd.Frame r ≠ int64_max → Rmsd.Frame_ID r = (Rmsd.Frame r + 1)%Z) ∧
     (Rmsd.Frame r = int64_max → Rmsd.Frame_ID r = int64_min) ∧
     ∃ c1 c2, Scenario.trajectory !! Rmsd.label r = Some (c1, c2) ∧
              field_to_int c1 = Some (Rmsd.Frame r) ∧
              field_to_float c2 = Some (Rmsd.RMSD r)) ∧
  (∀ i c1 c2 k,
     1 ≤ i → Scenario.trajectory !! i = Some (c1, c2) →
     field_to_int c1 = Some k → k ≠ 5001%Z →
     ∃ r, r ∈ Scenario.df ∧ Rmsd.label r = i ∧ Rmsd.Frame r = k ∧
          Rmsd.Frame_ID r = int64_wrap (k + 1) ∧
          (k ≠ int64_max → Rmsd.Frame_ID r = (k + 1)%Z)).
Proof.
  split; [vm_compute; reflexivity|]. split; [reflexivity|].
  apply (frame_id_is_frame_plus_one_in_int64 pandas_stable Scenario.trajectory
           Scenario.m Scenario.df).
  vm_compute. reflexivity.
Defined.

(** C6 as stated fails.  The row that holds the largest counter of an
    [int64] column, 9223372036854775807, is a row of [rmsd_df], and its
    [Frame_ID] is -9223372036854775808, not the counter plus one.  And not
    every entry of the file maps to a frame: of the trajectory with the
    counters 5000, 5001 and 5002 after its first row, neither the first row
    nor the row of counter 5001 has a row in [rmsd_df]. *)
Lemma frame_id_wraps_at_int64_max :
  rmsd_df pandas_stable Wrapped.trajectory ∅ = Some Wrapped.df ∧
  (∃ r, r ∈ Wrapped.df ∧
        Rmsd.Frame r = 9223372036854775807%Z ∧
        Rmsd.Frame_ID r = (-9223372036854775808)%Z ∧
        Rmsd.Frame_ID r ≠ (Rmsd.Frame r + 1)%Z) ∧
  rmsd_df pandas_stable Excluded.trajectory ∅ = Some Excluded.df ∧
  Rmsd.label <$> Excluded.df = [1; 3] ∧
  Rmsd.Frame <$> Excluded.df = [5000; 5002]%Z.
Proof.
  split; [vm_compute; reflexivity|]. split.
  - eexists. split; [apply list_elem_of_here|]. repeat split. simpl. lia.
  - split; [vm_compute; reflexivity|]. split; reflexivity.
Qed.

(** ** C7: the excluded frame *)

(** C7.  No row of [rmsd_df] has the identifier 5002. *)
Theorem sentinel_frame_excluded (P : Pandas) rows m df :
  rmsd_df P rows m = Some df → 5002%Z ∉ Rmsd.Frame_ID <$> df.
Proof.
  intros Hdf (r & Hid & Hr)%list_elem_of_fmap.
  by destruct (rmsd_df_elem P rows m df r Hdf Hr) as (c1 & c2 & _ & _ & _ & Hne).
Qed.

(** Counters 5000, 5001 and 5002: the row of counter 5001 is gone. *)
Lemma sentinel_frame_excluded_witness :
  rmsd_df pandas_stable Excluded.trajectory ∅ = Some Excluded.df ∧
  5002%Z ∉ Rmsd.Frame_ID <$> Excluded.df.
Proof.
  split; [vm_compute; reflexivity|].
  apply (sentinel_frame_excluded pandas_stable Excluded.trajectory ∅ Excluded.df).
  vm_compute. reflexivity.
Defined.

(** ** C8: feature tables that fail to parse *)

(** C8, as amended.  The loop runs to the end of every list of sources.  It
    prints one line per source that raised, in the order of the sources,
    naming the path and the exception; the keys of the resulting dictionary
    are the frame indices of the sources that parsed; a key holds the
    signature of the last source of its index; and the dictionary has one
    entry per distinct frame index of those sources, which is one entry per
    source only when no two of them share an index. *)
Theorem loader_skips_failed_sources (files : list csv_file) :
  let st := load_feature_tables files in
  stdout st = omap warning files ∧
  (∀ frame_id, frame_id ∈ dom (frame_feature_map st) ↔
               ∃ f sig, f ∈ files ∧ parsed f = Some (frame_id, sig)) ∧
  (∀ files1 f files2 frame_id sig,
     files = files1 ++ f :: files2 →
     parsed f = Some (frame_id, sig) →
     frame_id ∉ (omap parsed files2).*1 →
     frame_feature_map st !! frame_id = Some sig) ∧
  size (frame_feature_map st) = length (remove_dups (omap parsed files).*1) ∧
  size (frame_feature_map st) ≤ length (omap parsed files) ∧
  (NoDup (omap parsed files).*1 → size (frame_feature_map st) = length (omap parsed files)).
Proof.
  intros st. unfold st. split; [apply load_stdout|]. split; [|split; [|split; [|split]]].
  - intros frame_id. rewrite load_dom, elem_of_list_to_set, list_elem_of_fmap. split.
    + intros ([id sig] & -> & (f & Hf & Hp)%list_elem_of_omap). by exists f, sig.
    + intros (f & sig & Hf & Hp). exists (frame_id, sig). split; [done|].
      apply list_elem_of_omap. by exists f.
  - intros files1 f files2 frame_id sig ->. apply load_last_wins.
  - apply load_size.
  - rewrite load_size. etrans; [apply length_remove_dups_le|]. by rewrite length_fmap.
  - intros Hnd. by rewrite load_size, remove_dups_NoDup, length_fmap.
Qed.

(** The directory of the five-frame run: six tables, two of which raise
    (one cannot be opened, one has a single column).  Two lines are printed
    and the four others are in the dictionary. *)
Lemma loader_skips_failed_sources_witness :
  length (csv_files Scenario.listdir) = 6 ∧
  length (stdout Scenario.loaded) = 2 ∧
  stdout Scenario.loaded = omap warning (csv_files Scenario.listdir) ∧
  size Scenario.m = 4 ∧
  size Scenario.m = length (omap parsed (csv_files Scenario.listdir)).
Proof.
  split; [vm_compute; reflexivity|].
  split; [vm_compute; reflexivity|].
  split; [|split; [vm_compute; reflexivity|]];
    apply (loader_skips_failed_sources (csv_files Scenario.listdir)).
  vm_compute.
  repeat constructor; intros H; repeat (apply elem_of_cons in H as [H|H]; [discriminate H|]);
    by apply elem_of_nil in H.
Defined.

(** C8 as stated fails.  A directory with the tables [1_hypo_features_table.csv]
    and [01_hypo_features_table.csv]: both names pass the filter, both tables
    parse, nothing is printed, both have frame index 1, and the dictionary
    has one entry for the two sources. *)
Lemma padded_names_share_an_entry :
  file_name <$> csv_files Padded.listdir
    = ["01_hypo_features_table.csv"; "1_hypo_features_table.csv"] ∧
  omap parsed (csv_files Padded.listdir) = [(1%Z, "AR"); (1%Z, "HB")] ∧
  stdout (load_feature_tables (csv_files Padded.listdir)) = [] ∧
  size (frame_feature_map (load_feature_tables (csv_files Padded.listdir))) = 1 ∧
  size (frame_feature_map (load_feature_tables (csv_files Padded.listdir)))
    ≠ length (omap parsed (csv_files Padded.listdir)).
Proof.
  repeat split; try (vm_compute; reflexivity). vm_compute. discriminate.
Qed.

(** ** C9: the selection for the charts *)

(** C9.  [plot_df] holds no group whose length is in [exclude_lengths], holds
    at most [top_n] groups and is in descending order of [Percent]; the
    groups it leaves out of those with an admitted length have a percentage
    no larger than any it holds. *)
Theorem visualization_selection (P : Pandas) (sdf : list Summary.row) :
  Forall (λ s, Summary.Length s ∉ exclude_lengths) (plot_df P sdf) ∧
  length (plot_df P sdf) ≤ top_n ∧
  descending Qle Summary.Percent (plot_df P sdf) ∧
  ∃ rest,
    plot_df P sdf ++ rest ≡ₚ filter (λ s, Summary.Length s ∉ exclude_lengths) sdf ∧
    ∀ a b, a ∈ plot_df P sdf → b ∈ rest → (Summary.Percent b <= Summary.Percent a)%Q.
Proof.
  unfold plot_df, nlargest.
  set (eligible := filter (λ s, Summary.Length s ∉ exclude_lengths) sdf).
  set (ranked := sort_desc (nlargest_order P) Summary.Percent eligible).
  assert (ranked ≡ₚ eligible) as Hperm by apply sort_desc_perm.
  assert (descending Qle Summary.Percent (take top_n ranked ++ drop top_n ranked)) as Hsorted.
  { rewrite take_drop. apply sort_desc_sorted. }
  split; [|split; [|split]].
  - apply Forall_forall. intros s Hs%subseteq_take.
    rewrite Hperm in Hs. by apply list_elem_of_filter in Hs as [? _].
  - rewrite length_take. lia.
  - by eapply StronglySorted_app_1_l.
  - exists (drop top_n ranked). split; [by rewrite take_drop|].
    intros a b Ha Hb.
    by apply (StronglySorted_app_1_elem_of _ _ _ a b Hsorted).
Qed.

(** The five-frame run: HB has length 2 and stays out, although it is the
    most frequent group. *)
Lemma visualization_selection_witness :
  plot_df pandas_stable Scenario.sdf_stable = [Scenario.hbhb; Scenario.arhb] ∧
  Forall (λ s, Summary.Length s ∉ exclude_lengths) (plot_df pandas_stable Scenario.sdf_stable) ∧
  length (plot_df pandas_stable Scenario.sdf_stable) ≤ top_n ∧
  descending Qle Summary.Percent (plot_df pandas_stable Scenario.sdf_stable).
Proof.
  split; [vm_compute; reflexivity|].
  pose proof (visualization_selection pandas_stable Scenario.sdf_stable) as (H1 & H2 & H3 & _).
  done.
Defined.

(** ** C10: the first row of the trajectory file *)

(** C10.  [rmsd_df] does not depend on the first row that [read_csv] returns:
    whatever stands there, the result is the same; a file with one row gives
    the empty table; and every row of [rmsd_df] comes from a later row. *)
Theorem first_row_discarded (P : Pandas) (first : cell P * cell P) rest m :
  (∀ other, rmsd_df P (other :: rest) m = rmsd_df P (first :: rest) m) ∧
  rmsd_df P [first] m = Some [] ∧
  (∀ df, rmsd_df P (first :: rest) m = Some df →
     Forall (λ r, ∃ c1 c2, rest !! (Rmsd.label r - 1) = Some (c1, c2) ∧
                           1 ≤ Rmsd.label r ∧
                           astype_int P c1 = Some (Rmsd.Frame r) ∧
                           astype_float P c2 = Some (Rmsd.RMSD r)) df).
Proof.
  split; [done|]. split; [done|].
  intros df Hdf. apply Forall_forall. intros r Hr.
  destruct (rmsd_df_elem P _ m df r Hdf Hr) as (c1 & c2 & Hl & Hrow & Hd & _).
  destruct Hd as (_ & Hf & Hx & _). exists c1, c2.
  destruct (Rmsd.label r) as [|n]; [lia|].
  simpl in *. rewrite Nat.sub_0_r. done.
Qed.

(** Another first row gives the same table, and a file with a single row
    gives no frame. *)
Lemma first_row_discarded_witness :
  rmsd_df pandas_stable ((Int 7, Float (1 # 10)) :: tail Scenario.trajectory) Scenario.m
    = rmsd_df pandas_stable Scenario.trajectory Scenario.m ∧
  rmsd_df pandas_stable [(Int 0, Float (5 # 10))] Scenario.m = Some [].
Proof.
  split.
  - apply (first_row_discarded pandas_stable (Int 5, Float 0)
             (tail Scenario.trajectory) Scenario.m).
  - apply (first_row_discarded pandas_stable (Int 0, Float (5 # 10)) [] Scenario.m).
Defined.

(** * Further properties *)

(** Digit stripping is idempotent, on a label and on a signature. *)
Lemma strip_digits_idempotent (s : string) :
  strip_digits (strip_digits s) = strip_digits s.
Proof.
  induction s as [|c s IH]; simpl; [done|].
  destruct (is_digit c) eqn:E; simpl; [done|]. by rewrite E, IH.
Qed.

Theorem signature_idempotent (features_raw : list string) :
  join (strip_digits <$> (strip_digits <$> features_raw))
  = join (strip_digits <$> features_raw).
Proof.
  rewrite <-list_fmap_compose. f_equal. apply list_fmap_ext.
  intros i s _. apply strip_digits_idempotent.
Qed.

(** Every frame either carries the sentinel "-" or has its signature in
    exactly one row of [feature_counts]. *)
Theorem signature_in_one_group (P : Pandas) (df : list Rmsd.row) (r : Rmsd.row) :
  r ∈ df →
  Rmsd.Features r = "-" ∨
  ∃ i g, feature_counts P df !! i = Some g ∧
         Counts.Features g = Rmsd.Features r ∧
         ∀ j g', feature_counts P df !! j = Some g' →
                 Counts.Features g' = Rmsd.Features r → j = i.
Proof.
  intros Hr. destruct (decide (Rmsd.Features r = "-")) as [|Hf]; [by left|right].
  destruct (feature_counts_complete P df r Hr Hf) as (g & [i Hi]%list_elem_of_lookup & Hg).
  exists i, g. split; [done|]. split; [done|].
  intros j g' Hj Hg'.
  apply (NoDup_lookup _ _ _ (Rmsd.Features r) (feature_counts_NoDup P df));
    rewrite list_lookup_fmap.
  - by rewrite Hj, <-Hg'.
  - by rewrite Hi, <-Hg.
Qed.

Lemma signature_in_one_group_witness :
  Rmsd.Features (Rmsd.Row 4 3 (3 # 10) 4 "HB") = "-" ∨
  ∃ i g, feature_counts pandas_stable Scenario.df !! i = Some g ∧
         Counts.Features g = Rmsd.Features (Rmsd.Row 4 3 (3 # 10) 4 "HB") ∧
         ∀ j g', feature_counts pandas_stable Scenario.df !! j = Some g' →
                 Counts.Features g' = Rmsd.Features (Rmsd.Row 4 3 (3 # 10) 4 "HB") → j = i.
Proof.
  apply (signature_in_one_group pandas_stable Scenario.df (Rmsd.Row 4 3 (3 # 10) 4 "HB")).
  apply (list_elem_of_lookup_2 _ 3). reflexivity.
Defined.

Lemma feature_counts_nil (P : Pandas) df : matched df = [] → feature_counts P df = [].
Proof.
  unfold matched, feature_counts. intros ->. simpl.
  assert (value_counts P [] = []) as ->; [|done].
  apply Permutation_nil_r. apply (value_counts_perm P []).
Qed.

(** When no frame has a signature the script stops at [exit()] and builds no
    summary; a summary that is built holds at least one row, and some frame
    has a signature. *)
Theorem no_group_no_summary (P : Pandas) (df : list Rmsd.row) :
  (matched df = [] → summary_df P df = None) ∧
  (∀ sdf, summary_df P df = Some sdf → sdf ≠ [] ∧ matched df ≠ []).
Proof.
  assert (matched df = [] → summary_df P df = None) as Hexit.
  { intros Hm. unfold summary_df. by rewrite (feature_counts_nil P df Hm). }
  split; [done|]. intros sdf Hsdf. split.
  - destruct (summary_df_Some P df sdf Hsdf) as (recs & Hfc & Hrecs%mapM_Some & ->).
    intros Hnil. apply Hfc.
    apply (f_equal length) in Hnil. rewrite sort_desc_perm in Hnil.
    apply Forall2_length in Hrecs. rewrite Hnil in Hrecs.
    by destruct (feature_counts P df).
  - intros Hm. rewrite (Hexit Hm) in Hsdf. discriminate.
Qed.

(** The trajectory of counters 5000 to 5002 with no feature table: no frame
    has a signature, and the script stops at [exit()]. *)
Lemma no_group_no_summary_witness :
  matched Excluded.df = [] ∧ summary_df pandas_stable Excluded.df = None.
Proof.
  split; [reflexivity|].
  by apply (no_group_no_summary pandas_stable Excluded.df).
Defined.


(** The hypotheses whose files are copied: at most three groups of length at
    least 4, in the order of the summary. *)
Theorem best_hypotheses_selection (sdf : list Summary.row) :
  Forall (λ s, 4 ≤ Summary.Length s) (filtered_summary sdf) ∧
  length (filtered_summary sdf) ≤ 3 ∧
  filtered_summary sdf `sublist_of` sdf.
Proof.
  unfold filtered_summary. split; [|split].
  - apply Forall_forall. intros s Hs%subseteq_take. by apply list_elem_of_filter in Hs as [? _].
  - rewrite length_take. lia.
  - etrans; [apply sublist_take|apply sublist_filter].
Qed.

(** ** The colour palette *)

(** Whatever is typed, the palette is one of the thirteen listed: the one
    numbered [i] (from 1) when the input is a number [i] between 1 and 13,
    and Set2 for every other number and for an input that is not a number. *)
Theorem palette_name_listed :
  (∀ cmap_index, palette_name cmap_index ∈ color_palettes) ∧
  (∀ i, (1 ≤ i ≤ 13)%Z →
        color_palettes !! Z.to_nat (i - 1) = Some (palette_name (Some i))) ∧
  (∀ i, ¬ (1 ≤ i ≤ 13)%Z → palette_name (Some i) = "Set2") ∧
  palette_name None = "Set2".
Proof.
  assert ("Set2" ∈ color_palettes) as Hdef
    by (apply (list_elem_of_lookup_2 _ 1); reflexivity).
  split; [|split; [|split]].
  - intros [i|]; simpl; [|done]. case_decide as Hi; [|done].
    destruct (color_palettes !! Z.to_nat (i - 1)) as [name|] eqn:E; simpl; [|done].
    by eapply list_elem_of_lookup_2.
  - intros i Hi. simpl. rewrite decide_True by (simpl; lia).
    destruct (color_palettes !! Z.to_nat (i - 1)) as [name|] eqn:E; [done|].
    apply lookup_ge_None in E. simpl in E. lia.
  - intros i Hi. simpl. by rewrite decide_False.
  - done.
Qed.

(** ** The list of feature tables *)

Lemma csv_files_elem listdir f :
  f ∈ csv_files listdir ↔ f ∈ listdir ∧ is_Some (frame_id_of f).
Proof.
  unfold csv_files, frame_id_of.
  rewrite merge_sort_Permutation, list_elem_of_filter, fmap_is_Some. tauto.
Qed.

(** Every feature table of the directory is either loaded or reported, and
    not both: the tables that gave an entry of the dictionary and the lines
    printed add up to the tables. *)
Theorem every_table_loaded_or_reported (listdir : list csv_file) :
  length (omap parsed (csv_files listdir))
  + length (stdout (load_feature_tables (csv_files listdir)))
  = length (csv_files listdir).
Proof.
  assert (Forall (λ f, is_Some (frame_id_of f)) (csv_files listdir)) as Hall.
  { apply Forall_forall. by intros f [_ Hf]%csv_files_elem. }
  rewrite load_stdout. induction Hall as [|f files [frame_id Hf] _ IH]; [done|].
  change (f :: files) with ([f] ++ files). rewrite !omap_app, !length_app, <-IH.
  cbn [omap list_omap]. unfold parsed at 1, warning at 1. rewrite Hf.
  destruct (features_clean_of f); simpl; lia.
Qed.

(** ** Signatures *)

Lemma strip_digits_digit_free s : digit_free (strip_digits s) = true.
Proof.
  induction s as [|c s IH]; simpl; [done|].
  destruct (is_digit c) eqn:E; simpl; [done|]. by rewrite E.
Qed.

Lemma strip_digits_app s t :
  strip_digits (s +:+ t) = strip_digits s +:+ strip_digits t.
Proof.
  induction s as [|c s IH]; [done|].
  change (strip_digits (String c (s +:+ t)) = strip_digits (String c s) +:+ strip_digits t).
  simpl. destruct (is_digit c); [done|].
  change (String c (strip_digits (s +:+ t)) = String c (strip_digits s +:+ strip_digits t)).
  by rewrite IH.
Qed.

Lemma join_strip_digits (features_raw : list string) :
  join (strip_digits <$> features_raw) = strip_digits (join features_raw).
Proof.
  unfold join. induction features_raw as [|s l IH]; [done|].
  rewrite fmap_cons. cbn [foldr]. by rewrite strip_digits_app, IH.
Qed.

(** Stripping the digits label by label and joining is stripping the digits
    of the joined labels, and the signature holds no digit. *)
Theorem signature_of_concatenation (features_raw : list string) :
  join (strip_digits <$> features_raw) = strip_digits (join features_raw) ∧
  digit_free (join (strip_digits <$> features_raw)) = true.
Proof.
  split; [apply join_strip_digits|].
  rewrite join_strip_digits. apply strip_digits_digit_free.
Qed.

Lemma features_clean_digit_free f sig :
  features_clean_of f = Returned sig → digit_free sig = true.
Proof.
  unfold features_clean_of.
  destruct (readline f) as [e|header]; [done|]. simpl.
  destruct (read_csv f _) as [e|df]; [done|]. simpl.
  destruct (feature_column df) as [e|features_raw]; [done|]. simpl.
  intros [= <-]. rewrite join_strip_digits. apply strip_digits_digit_free.
Qed.

(** From the tables to the frames: no signature of [rmsd_df] holds a digit,
    whatever the tables hold (the sentinel "-" holds none either). *)
Theorem signatures_digit_free (P : Pandas) files rows df r :
  rmsd_df P rows (frame_feature_map (load_feature_tables files)) = Some df →
  r ∈ df → digit_free (Rmsd.Features r) = true.
Proof.
  intros Hdf Hr.
  destruct (rmsd_df_elem P rows _ df r Hdf Hr) as (c1 & c2 & _ & _ & Hd & _).
  destruct Hd as (_ & _ & _ & _ & ->).
  destruct (_ !! Rmsd.Frame_ID r) as [sig|] eqn:E; simpl; [|done].
  apply load_lookup_Some in E as (f & _ & Hp).
  unfold parsed in Hp. destruct (frame_id_of f); [|done].
  destruct (features_clean_of f) as [e|sig'] eqn:Hf; [done|]. simplify_eq.
  by eapply features_clean_digit_free.
Qed.

Lemma signatures_digit_free_witness :
  rmsd_df pandas_stable Scenario.trajectory
          (frame_feature_map (load_feature_tables (csv_files Scenario.listdir)))
    = Some Scenario.df ∧
  digit_free (Rmsd.Features (Rmsd.Row 3 2 (9 # 10) 3 "ARHB")) = true.
Proof.
  split; [vm_compute; reflexivity|].
  apply (signatures_digit_free pandas_stable (csv_files Scenario.listdir)
           Scenario.trajectory Scenario.df).
  - vm_compute. reflexivity.
  - apply (list_elem_of_lookup_2 _ 2). reflexivity.
Defined.

(** From the tables to the frames: a frame of [rmsd_df] carries "-" when no
    table of its identifier parsed, and otherwise the signature of the last
    table of its identifier that parsed. *)
Theorem frame_signature_from_last_table (P : Pandas) files rows df r :
  rmsd_df P rows (frame_feature_map (load_feature_tables files)) = Some df →
  r ∈ df →
  ((Rmsd.Frame_ID r ∉ (omap parsed files).*1) ∧ Rmsd.Features r = "-") ∨
  (∃ files1 f files2,
     files = files1 ++ f :: files2 ∧
     parsed f = Some (Rmsd.Frame_ID r, Rmsd.Features r) ∧
     (Rmsd.Frame_ID r ∉ (omap parsed files2).*1)).
Proof.
  intros Hdf Hr.
  destruct (rmsd_df_elem P rows _ df r Hdf Hr) as (c1 & c2 & _ & _ & Hd & _).
  destruct Hd as (_ & _ & _ & _ & Hfeat).
  destruct (decide (Rmsd.Frame_ID r ∈ (omap parsed files).*1)) as [Hin|Hout].
  - right. clear Hdf Hr.
    revert Hfeat. generalize (Rmsd.Frame_ID r) (Rmsd.Features r) Hin. clear.
    intros frame_id feat Hin.
    induction files as [|f files IH] using rev_ind; [by apply elem_of_nil in Hin|].
    rewrite omap_app, fmap_app in Hin. simpl in Hin.
    destruct (parsed f) as [[id sig]|] eqn:E.
    + destruct (decide (id = frame_id)) as [->|Hne].
      * intros Hfeat. exists files, f, []. split; [done|].
        rewrite load_snoc, load_one_map, E, lookup_insert_eq in Hfeat. simpl in Hfeat.
        subst. split; [done|]. apply not_elem_of_nil.
      * rewrite load_snoc, load_one_map, E, lookup_insert_ne by done.
        intros Hfeat. destruct IH as (files1 & f' & files2 & -> & Hp & Hlater); [|done|].
        { apply elem_of_app in Hin as [?|Hin]; [done|].
          apply list_elem_of_singleton in Hin. simpl in Hin. congruence. }
        exists files1, f', (files2 ++ [f]). split; [by rewrite <-app_assoc|].
        split; [done|]. rewrite omap_app, fmap_app. simpl. rewrite E. simpl.
        apply not_elem_of_app. split; [done|]. intros ?%list_elem_of_singleton. done.
    + rewrite load_snoc, load_one_map, E. simpl in Hin. rewrite app_nil_r in Hin.
      intros Hfeat. destruct (IH Hin Hfeat) as (files1 & f' & files2 & -> & Hp & Hlater).
      exists files1, f', (files2 ++ [f]). split; [by rewrite <-app_assoc|].
      split; [done|]. rewrite omap_app, fmap_app. simpl. rewrite E. simpl.
      by rewrite app_nil_r.
  - left. split; [done|]. rewrite Hfeat.
    destruct (_ !! Rmsd.Frame_ID r) as [sig|] eqn:E; [|done].
    apply load_lookup_Some in E as (f & Hf & Hp). exfalso. apply Hout.
    apply list_elem_of_fmap. exists (Rmsd.Frame_ID r, sig). split; [done|].
    apply list_elem_of_omap. by exists f.
Qed.

(** The frame of identifier 5 has no table; the frame of identifier 2 has
    one. *)
Lemma frame_signature_from_last_table_witness :
  (((5%Z ∉ (omap parsed (csv_files Scenario.listdir)).*1) ∧ "-" = "-") ∨
   (∃ files1 f files2,
      csv_files Scenario.listdir = files1 ++ f :: files2 ∧
      parsed f = Some (5%Z, "-") ∧
      (5%Z ∉ (omap parsed files2).*1))) ∧
  (((2%Z ∉ (omap parsed (csv_files Scenario.listdir)).*1) ∧ "HB" = "-") ∨
   (∃ files1 f files2,
      csv_files Scenario.listdir = files1 ++ f :: files2 ∧
      parsed f = Some (2%Z, "HB") ∧
      (2%Z ∉ (omap parsed files2).*1))).
Proof.
  split.
  - apply (frame_signature_from_last_table pandas_stable (csv_files Scenario.listdir)
             Scenario.trajectory Scenario.df (Rmsd.Row 5 4 (12 # 10) 5 "-")).
    + vm_compute. reflexivity.
    + apply (list_elem_of_lookup_2 _ 4). reflexivity.
  - apply (frame_signature_from_last_table pandas_stable (csv_files Scenario.listdir)
             Scenario.trajectory Scenario.df (Rmsd.Row 2 1 (3 # 10) 2 "HB")).
    + vm_compute. reflexivity.
    + apply (list_elem_of_lookup_2 _ 1). reflexivity.
Defined.

(** ** The trajectory table *)

Lemma StronglySorted_sublist {A} (R : relation A) (l1 l2 : list A) :
  l1 `sublist_of` l2 → StronglySorted R l2 → StronglySorted R l1.
Proof.
  induction 1 as [|x l1 l2 Hsub IH|x l1 l2 Hsub IH]; intros Hs; [done|..].
  - apply StronglySorted_cons in Hs as [Hx Hs]. constructor; [by apply IH|].
    apply Forall_forall. intros y Hy. rewrite Forall_forall in Hx.
    apply Hx. by eapply elem_of_sublist.
  - apply StronglySorted_cons in Hs as [_ Hs]. by apply IH.
Qed.

Lemma StronglySorted_seq j n : StronglySorted lt (seq j n).
Proof.
  revert j. induction n as [|n IH]; intros j; simpl; constructor; [apply IH|].
  apply Forall_forall. intros k Hk%elem_of_seq. lia.
Qed.

Section MergerRows.
  Context (P : Pandas).
  Implicit Types (rows : list (cell P * cell P)) (m : gmap Z string).

Lemma labelled_cells rows : (λ t, (t.1.2, t.2)) <$> labelled rows = rows.
Proof.
  unfold labelled. apply list_eq. intros i.
  rewrite list_lookup_fmap, list_lookup_imap.
  by destruct (rows !! i) as [[c1 c2]|].
Qed.

(** The rows of [rmsd_df] stand in the order of the file, and the only rows
    after the first that are missing from it are those whose counter is
    5001. *)
Theorem rmsd_df_in_file_order rows m df :
  rmsd_df P rows m = Some df →
  StronglySorted lt (Rmsd.label <$> df) ∧
  length df + length (filter (λ c, astype_int P c.1 = Some 5001%Z) (drop 1 rows))
    = length (drop 1 rows).
Proof.
  intros (every & HF & ->)%rmsd_df_Some. split.
  - eapply StronglySorted_sublist; [apply fmap_sublist, sublist_filter|].
    rewrite (Forall2_derived_labels _ _ _ _ HF), fmap_drop, labelled_labels.
    eapply StronglySorted_sublist; [apply sublist_drop|apply StronglySorted_seq].
  - rewrite <-(labelled_cells rows) at 1 2. rewrite <-!fmap_drop.
    revert HF. generalize (drop 1 (labelled rows)). intros ts HF.
    induction HF as [|[[i c1] c2] r ts every Hd _ IH]; [done|].
    destruct Hd as (_ & Hf & _ & Hid & _). simpl in Hf.
    pose proof (int64_wrap_succ_sentinel _ (astype_int_int64 P c1 _ Hf)) as Hsent.
    rewrite <-Hid in Hsent.
    rewrite !fmap_cons, !filter_cons. cbn [fst snd length]. rewrite Hf.
    destruct (decide (Rmsd.Frame_ID r ≠ 5002%Z)) as [Hne|Heq].
    + rewrite decide_False; [simpl; lia|]. intros [= H]. by apply Hne, Hsent.
    + rewrite decide_True; [simpl; lia|]. f_equal. apply Hsent.
      destruct (decide (Rmsd.Frame_ID r = 5002%Z)); [done|contradiction].
Qed.

End MergerRows.

(** Counters 5000, 5001 and 5002 after the first row: two rows are kept, in
    the order of the file, and one is missing. *)
Lemma rmsd_df_in_file_order_witness :
  rmsd_df pandas_stable Excluded.trajectory ∅ = Some Excluded.df ∧
  StronglySorted lt (Rmsd.label <$> Excluded.df) ∧
  length Excluded.df
  + length (filter (λ c, field_to_int c.1 = Some 5001%Z) (drop 1 Excluded.trajectory))
  = length (drop 1 Excluded.trajectory).
Proof.
  split; [vm_compute; reflexivity|].
  apply (rmsd_df_in_file_order pandas_stable Excluded.trajectory ∅ Excluded.df).
  vm_compute. reflexivity.
Defined.

(** ** The groups *)

Lemma rint_close (y : Q) :
  (inject_Z (rint y) - (1 # 2) <= y <= inject_Z (rint y) + (1 # 2))%Q.
Proof.
  unfold rint. pose proof (Qfloor_le y) as Hlo. pose proof (Qlt_floor y) as Hhi.
  rewrite inject_Z_plus in Hhi.
  change (inject_Z 1) with 1%Q in Hhi.
  destruct (y - inject_Z (Qfloor y) ?= 1 # 2)%Q eqn:E.
  - apply Qeq_alt in E. destruct (Z.even (Qfloor y)).
    + split; lra.
    + rewrite inject_Z_plus. change (inject_Z 1) with 1%Q. split; lra.
  - apply Qlt_alt in E. split; lra.
  - apply Qgt_alt in E. rewrite inject_Z_plus. change (inject_Z 1) with 1%Q. split; lra.
Qed.

(** Rounding to an integer does not cross an integer bound. *)
Lemma rint_bounds (y : Q) (lo hi : Z) :
  (inject_Z lo <= y <= inject_Z hi)%Q → (lo ≤ rint y ≤ hi)%Z.
Proof.
  intros [Hlo Hhi]. pose proof (rint_close y) as [H1 H2].
  assert (inject_Z lo < inject_Z (rint y) + 1)%Q as Ha by lra.
  assert (inject_Z (rint y) < inject_Z hi + 1)%Q as Hb by lra.
  change 1%Q with (inject_Z 1) in Ha, Hb. rewrite <-inject_Z_plus in Ha, Hb.
  rewrite <-Zlt_Qlt in Ha, Hb. lia.
Qed.

Lemma first_minimum_unique subset r1 r2 :
  first_minimum subset r1 → first_minimum subset r2 → r1 = r2.
Proof.
  intros (i1 & Hi1 & Hall1 & Hlt1) (i2 & Hi2 & Hall2 & Hlt2).
  assert (i1 = i2) as ->; [|congruence].
  destruct (Nat.lt_trichotomy i1 i2) as [Hlt|[?|Hlt]]; [|done|]; exfalso.
  - pose proof (Hlt2 _ _ Hlt Hi1) as Ha.
    pose proof (Hall1 r2 (list_elem_of_lookup_2 _ _ _ Hi2)) as Hb. lra.
  - pose proof (Hlt1 _ _ Hlt Hi2) as Ha.
    pose proof (Hall2 r1 (list_elem_of_lookup_2 _ _ _ Hi1)) as Hb. lra.
Qed.

Lemma string_app_inj_r (s1 s2 t : string) : s1 +:+ t = s2 +:+ t → s1 = s2.
Proof.
  assert (∀ s, String.length (s +:+ t) = String.length s + String.length t) as Hlen.
  { intros s. induction s as [|c s IH]; [done|].
    change (S (String.length (s +:+ t)) = S (String.length s) + String.length t).
    by rewrite IH. }
  revert s2. induction s1 as [|c1 s1 IH]; intros [|c2 s2] Heq; [done|..].
  - apply (f_equal String.length) in Heq. rewrite !Hlen in Heq. simpl in Heq. lia.
  - apply (f_equal String.length) in Heq. rewrite !Hlen in Heq. simpl in Heq. lia.
  - change (String c1 (s1 +:+ t) = String c2 (s2 +:+ t)) in Heq.
    injection Heq as -> Heq. f_equal. by apply IH.
Qed.

Lemma hypo_file_inj (frame_id1 frame_id2 : Z) :
  hypo_file frame_id1 = hypo_file frame_id2 → frame_id1 = frame_id2.
Proof. unfold hypo_file. intros Heq%string_app_inj_r. by apply pretty_Z_inj in Heq. Qed.

Section Groups.
  Context (P : Pandas).
  Implicit Types (df : list Rmsd.row) (sdf : list Summary.row).

Lemma feature_counts_bounds df g :
  g ∈ feature_counts P df →
  1 ≤ Counts.Count g ≤ total_frames df ∧ (0 < Counts.Percent g <= 100)%Q.
Proof.
  intros Hg.
  destruct (feature_counts_elem P df g Hg) as (_ & (r & Hr & Hf) & Hc & Hp & _).
  assert (1 ≤ Counts.Count g ≤ total_frames df) as Hb.
  { rewrite Hc. unfold members, total_frames. split; [|apply length_filter].
    assert (r ∈ filter (λ r, Rmsd.Features r = Counts.Features g) df) as Hin
      by (by apply list_elem_of_filter).
    destruct (filter _ df); [by apply elem_of_nil in Hin|simpl; lia]. }
  split; [done|]. rewrite Hp. unfold total_frames in *.
  assert (0 < inject_Z (Z.of_nat (Counts.Count g)))%Q as Hc0
    by (change 0%Q with (inject_Z 0); rewrite <-Zlt_Qlt; lia).
  assert (inject_Z (Z.of_nat (Counts.Count g)) <= inject_Z (Z.of_nat (length df)))%Q as HcT
    by (rewrite <-Zle_Qle; lia).
  assert (0 < inject_Z (Z.of_nat (length df)))%Q as HT by lra.
  split.
  - apply Qlt_shift_div_l; [done|]. lra.
  - apply Qle_shift_div_r; [done|]. lra.
Qed.

(** [feature_counts] is ranked: its rows stand by descending count, whatever
    order [value_counts] gives to equal counts; every count lies between 1
    and the number of frames, every percentage above 0 and up to 100. *)
Theorem feature_counts_ranked df :
  descending Nat.le Counts.Count (feature_counts P df) ∧
  Forall (λ g, 1 ≤ Counts.Count g ≤ total_frames df ∧
               (0 < Counts.Percent g <= 100)%Q) (feature_counts P df).
Proof.
  split.
  - unfold feature_counts, descending.
    eapply StronglySorted_fmap; [|apply (sort_desc_sorted (value_counts_order P) snd)].
    by intros [f1 c1] [f2 c2].
  - apply Forall_forall. intros g Hg. by apply feature_counts_bounds.
Qed.

Lemma summary_df_features df sdf :
  summary_df P df = Some sdf →
  Summary.Features <$> sdf ≡ₚ Counts.Features <$> feature_counts P df.
Proof.
  intros (recs & _ & HF%mapM_Some & ->)%summary_df_Some.
  rewrite sort_desc_perm. clear -HF.
  induction HF as [|g s fc recs Hs _ IH]; [done|].
  rewrite !fmap_cons, IH. f_equiv.
  revert Hs. unfold summary_record.
  destruct (idxmin _) as [lbl|]; [|done]. simpl.
  destruct (loc _ lbl) as [min_row|]; [|done]. simpl. by intros [= <-].
Qed.

Lemma summary_df_row df sdf s :
  summary_df P df = Some sdf → s ∈ sdf →
  Summary.Features s ≠ "-" ∧
  Summary.Length s = String.length (Summary.Features s) ∧
  1 ≤ Summary.Count s ≤ total_frames df ∧
  (0 <= Summary.Percent s <= 100)%Q.
Proof.
  intros Hsdf Hs.
  destruct (summary_df_columns P df sdf s Hsdf Hs) as (g & Hg & Hf & Hc & Hl & Hp).
  destruct (feature_counts_elem P df g Hg) as (Hne & _ & _ & _ & Hlen).
  destruct (feature_counts_bounds df g Hg) as (Hcount & Hp0 & Hp100).
  split; [by rewrite Hf|]. split; [by rewrite Hl, Hlen, Hf|].
  split; [by rewrite Hc|].
  rewrite Hp. unfold round.
  change (inject_Z (10 ^ Z.of_nat 1)) with 10%Q.
  destruct (rint_bounds (Counts.Percent g * 10) 0 1000) as [H0 H1000].
  { change (inject_Z 0) with 0%Q. change (inject_Z 1000) with 1000%Q. split; lra. }
  rewrite Zle_Qle in H0, H1000.
  change (inject_Z 0) with 0%Q in H0. change (inject_Z 1000) with 1000%Q in H1000.
  set (k := inject_Z (rint (Counts.Percent g * 10))) in *. clearbody k.
  change (k / 10)%Q with (k * (1 # 10))%Q. split; lra.
Qed.

(** [summary_df] has one row per signature that occurs: no signature twice,
    the signatures of [feature_counts] and no other, never the sentinel.  In
    each row [Length] is the length of the signature, the count lies between
    1 and the number of frames and the rounded percentage between 0 and
    100. *)
Theorem summary_one_row_per_group df sdf :
  summary_df P df = Some sdf →
  NoDup (Summary.Features <$> sdf) ∧
  Summary.Features <$> sdf ≡ₚ Counts.Features <$> feature_counts P df ∧
  Forall (λ s, Summary.Features s ≠ "-" ∧
               Summary.Length s = String.length (Summary.Features s) ∧
               1 ≤ Summary.Count s ≤ total_frames df ∧
               (0 <= Summary.Percent s <= 100)%Q) sdf.
Proof.
  intros Hsdf. split; [|split].
  - rewrite (summary_df_features df sdf Hsdf). apply feature_counts_NoDup.
  - by apply summary_df_features.
  - apply Forall_forall. intros s Hs. by apply (summary_df_row df sdf).
Qed.

(** Line 163 changes nothing: the lengths that [plot_df] takes over from
    [summary_df] are already the lengths of the signatures. *)
Theorem relength_plot_df df sdf :
  summary_df P df = Some sdf → relength (plot_df P sdf) = plot_df P sdf.
Proof.
  intros Hsdf.
  assert (Forall (λ s, Summary.Length s = String.length (Summary.Features s)) (plot_df P sdf))
    as Hplot.
  { apply Forall_forall. intros s Hs. apply (summary_df_row df sdf s Hsdf).
    unfold plot_df, nlargest in Hs.
    apply subseteq_take in Hs. rewrite sort_desc_perm in Hs.
    by apply list_elem_of_filter in Hs as [_ ?]. }
  unfold relength. induction Hplot as [|[f l fr c len p] rest Hlen _ IH]; [done|].
  rewrite fmap_cons, IH. simpl in *. by rewrite Hlen.
Qed.

Lemma summary_df_frames rows m df sdf :
  rmsd_df P rows m = Some df →
  summary_df P df = Some sdf →
  NoDup (Summary.Frame <$> sdf).
Proof.
  intros Hdf Hsdf.
  pose proof (rmsd_df_labels_NoDup P rows m df Hdf) as Hnd.
  assert (NoDup (Summary.Features <$> sdf)) as Hfeat
    by (rewrite (summary_df_features df sdf Hsdf); apply feature_counts_NoDup).
  apply NoDup_fmap_2_strong; [|by eapply NoDup_fmap_1].
  intros s1 s2 Hs1 Hs2 Hframe.
  destruct (summary_df_elem P df sdf s1 Hnd Hsdf Hs1) as (g1 & r1 & Hg1 & Hm1 & ->).
  destruct (summary_df_elem P df sdf s2 Hnd Hsdf Hs2) as (g2 & r2 & Hg2 & Hm2 & ->).
  simpl in Hframe.
  assert (∀ g r, first_minimum (members (Counts.Features g) df) r →
                 Rmsd.Features r = Counts.Features g ∧
                 Rmsd.Features r = default "-" (m !! Rmsd.Frame_ID r)) as Hmem.
  { intros g r (i & Hi & _).
    apply list_elem_of_lookup_2, list_elem_of_filter in Hi as [Hf Hr].
    split; [done|].
    destruct (rmsd_df_elem P rows m df r Hdf Hr) as (c1 & c2 & _ & _ & Hd & _).
    by destruct Hd as (_ & _ & _ & _ & ?). }
  destruct (Hmem g1 r1 Hm1) as [Hf1 Hd1]. destruct (Hmem g2 r2 Hm2) as [Hf2 Hd2].
  assert (Counts.Features g1 = Counts.Features g2) as Hg by congruence.
  assert (g1 = g2) as ->.
  { apply list_elem_of_lookup in Hg1 as [i1 Hi1]. apply list_elem_of_lookup in Hg2 as [i2 Hi2].
    assert (i1 = i2) as ->; [|congruence].
    apply (NoDup_lookup _ _ _ (Counts.Features g1) (feature_counts_NoDup P df));
      rewrite list_lookup_fmap; [by rewrite Hi1|by rewrite Hi2, Hg]. }
  by rewrite (first_minimum_unique _ _ _ Hm1 Hm2).
Qed.

(** No two rows of [summary_df] name the same representative frame: a frame
    identifier has one signature, and a group one first minimum.  So the
    hypothesis files that lines 196 to 199 name for the selected groups are
    pairwise different. *)
Theorem representative_frames_distinct rows m df sdf :
  rmsd_df P rows m = Some df →
  summary_df P df = Some sdf →
  NoDup (Summary.Frame <$> sdf) ∧
  NoDup (hypo_file <$> (Summary.Frame <$> filtered_summary sdf)).
Proof.
  intros Hdf Hsdf.
  pose proof (summary_df_frames rows m df sdf Hdf Hsdf) as Hnd. split; [done|].
  apply NoDup_fmap_2_strong; [by intros a b _ _ ?%hypo_file_inj|].
  apply (sublist_NoDup _ _ Hnd).
  apply fmap_sublist. unfold filtered_summary.
  etrans; [apply sublist_take|apply sublist_filter].
Qed.

End Groups.

Lemma summary_one_row_per_group_witness :
  summary_df pandas_stable Scenario.df = Some Scenario.sdf_stable ∧
  NoDup (Summary.Features <$> Scenario.sdf_stable) ∧
  Summary.Features <$> Scenario.sdf_stable
    ≡ₚ Counts.Features <$> feature_counts pandas_stable Scenario.df ∧
  Forall (λ s, Summary.Features s ≠ "-" ∧
               Summary.Length s = String.length (Summary.Features s) ∧
               1 ≤ Summary.Count s ≤ total_frames Scenario.df ∧
               (0 <= Summary.Percent s <= 100)%Q) Scenario.sdf_stable.
Proof.
  split; [vm_compute; reflexivity|].
  apply (summary_one_row_per_group pandas_stable Scenario.df Scenario.sdf_stable).
  vm_compute. reflexivity.
Defined.

Lemma relength_plot_df_witness :
  summary_df pandas_stable Scenario.df = Some Scenario.sdf_stable ∧
  relength (plot_df pandas_stable Scenario.sdf_stable)
    = plot_df pandas_stable Scenario.sdf_stable.
Proof.
  split; [vm_compute; reflexivity|].
  apply (relength_plot_df pandas_stable Scenario.df Scenario.sdf_stable).
  vm_compute. reflexivity.
Defined.

(** The five-frame run: the representative frames are 2, 1 and 3, and the
    two groups of length 4 name two files. *)
Lemma representative_frames_distinct_witness :
  Summary.Frame <$> Scenario.sdf_stable = [2%Z; 1%Z; 3%Z] ∧
  hypo_file <$> (Summary.Frame <$> filtered_summary Scenario.sdf_stable)
    = ["1_hypo.phypo"; "3_hypo.phypo"] ∧
  NoDup (Summary.Frame <$> Scenario.sdf_stable) ∧
  NoDup (hypo_file <$> (Summary.Frame <$> filtered_summary Scenario.sdf_stable)).
Proof.
  split; [reflexivity|]. split; [vm_compute; reflexivity|].
  apply (representative_frames_distinct pandas_stable Scenario.trajectory Scenario.m
           Scenario.df Scenario.sdf_stable); vm_compute; reflexivity.
Defined.

(** ** The report *)

Lemma unique_elem_of values v : v ∈ unique values ↔ v ∈ values.
Proof.
  induction values as [|w values IH]; simpl; [done|].
  rewrite !elem_of_cons, list_elem_of_filter, IH.
  destruct (decide (v = w)) as [->|Hne]; [split; by left|].
  split; [intros [?|[_ ?]]; [done|by right]|intros [?|?]; [done|by right]].
Qed.

Lemma unique_NoDup values : NoDup (unique values).
Proof.
  induction values as [|w values IH]; simpl; [constructor|].
  constructor; [|by apply NoDup_filter].
  rewrite list_elem_of_filter. by intros [? _].
Qed.

Lemma filter_iff_elem_of {A} (P1 P2 : A → Prop)
    `{!∀ x, Decision (P1 x), !∀ x, Decision (P2 x)} (l : list A) :
  (∀ x, x ∈ l → P1 x ↔ P2 x) → filter P1 l = filter P2 l.
Proof.
  induction l as [|x l IH]; intros Hiff; [done|].
  rewrite !filter_cons, IH by (intros y Hy; apply Hiff; by right).
  specialize (Hiff x (list_elem_of_here _ _)).
  destruct (decide (P1 x)), (decide (P2 x)); tauto.
Qed.

Lemma filter_group_cons {A K} `{EqDecision K} (key : A → K) (k : K) (ks : list K) (l : list A) :
  k ∉ ks →
  filter (λ x, key x ∈ k :: ks) l ≡ₚ filter (λ x, key x = k) l ++ filter (λ x, key x ∈ ks) l.
Proof.
  intros Hk. induction l as [|x l IH]; [done|].
  rewrite !filter_cons.
  destruct (decide (key x = k)) as [Heq|Hne].
  - rewrite decide_True by (rewrite Heq; left).
    rewrite decide_False by (by rewrite Heq). simpl. by rewrite IH.
  - destruct (decide (key x ∈ ks)) as [Hin|Hnin].
    + rewrite decide_True by (by right). rewrite IH.
      by rewrite Permutation_middle.
    + rewrite decide_False by (by intros [?|?]%elem_of_cons). done.
Qed.

Lemma concat_groups {A K} `{EqDecision K} (key : A → K) (ks : list K) (l : list A) :
  NoDup ks →
  concat ((λ k, filter (λ x, key x = k) l) <$> ks) ≡ₚ filter (λ x, key x ∈ ks) l.
Proof.
  induction 1 as [|k ks Hk _ IH]; simpl.
  - induction l as [|x l IHl]; [done|].
    rewrite filter_cons, decide_False by apply not_elem_of_nil. done.
  - by rewrite filter_group_cons, IH.
Qed.

Section ReportSections.
  Variable str_float : float64 → string.

Lemma summary_lines_fold sdf (acc : list string) (lengths : list nat) :
  foldl (λ summary_lines length,
           if bool_decide (length ∈ exclude_lengths) then summary_lines
           else
             let group := filter (λ s, Summary.Length s = length) sdf in
             ((summary_lines ++ [heading length]) ++ (item str_float <$> group)) ++ ["</ul>"])
        acc lengths
  = acc ++ concat ((λ n, section_lines str_float n (filter (λ s, Summary.Length s = n) sdf))
                     <$> filter (λ n, n ∉ exclude_lengths) lengths).
Proof.
  revert acc. induction lengths as [|n lengths IH]; intros acc; simpl.
  - by rewrite app_nil_r.
  - rewrite IH, filter_cons. case_bool_decide as Hn.
    + by rewrite decide_False by (by intros ?).
    + rewrite decide_True by done. simpl. unfold section_lines.
      by rewrite <-!app_assoc.
Qed.

(** The report is a sequence of sections, one per length that occurs in the
    summary and is not excluded, by strictly increasing length.  A section
    is never empty and lists the rows of its length in the order of the
    summary.  Together the sections list every row of a length that is not
    excluded once, and no other row. *)
Theorem report_sections (sdf : list Summary.row) :
  ∃ sections : list (nat * list Summary.row),
    summary_lines str_float sdf
      = concat ((λ sec, section_lines str_float (fst sec) (snd sec)) <$> sections) ∧
    StronglySorted lt (fst <$> sections) ∧
    Forall (λ sec, (fst sec ∉ exclude_lengths) ∧ snd sec ≠ [] ∧
                   snd sec = filter (λ s, Summary.Length s = fst sec) sdf) sections ∧
    concat (snd <$> sections) ≡ₚ filter (λ s, Summary.Length s ∉ exclude_lengths) sdf.
Proof.
  set (lengths := merge_sort (≤) (unique (Summary.Length <$> sdf))).
  assert (lengths ≡ₚ unique (Summary.Length <$> sdf)) as Hperm
    by apply merge_sort_Permutation.
  assert (NoDup lengths) as Hnd by (rewrite Hperm; apply unique_NoDup).
  assert (∀ n, n ∈ lengths ↔ n ∈ Summary.Length <$> sdf) as Hin
    by (intros n; by rewrite Hperm, unique_elem_of).
  assert (StronglySorted lt lengths) as Hsorted.
  { assert (StronglySorted le lengths) as Hle
      by (apply StronglySorted_merge_sort; apply _).
    clear -Hle Hnd. induction Hle as [|n l _ IH Hall]; [constructor|].
    apply NoDup_cons in Hnd as [Hn Hnd]. constructor; [by apply IH|].
    apply Forall_forall. intros k Hk. rewrite Forall_forall in Hall.
    specialize (Hall k Hk). assert (k ≠ n) by (by intros ->). lia. }
  set (kept := filter (λ n, n ∉ exclude_lengths) lengths).
  exists ((λ n, (n, filter (λ s, Summary.Length s = n) sdf)) <$> kept).
  split; [|split; [|split]].
  - unfold summary_lines. fold lengths. rewrite summary_lines_fold. simpl.
    fold kept. by rewrite <-list_fmap_compose.
  - rewrite <-list_fmap_compose.
    rewrite (list_fmap_ext _ id kept) by done. rewrite list_fmap_id.
    eapply StronglySorted_sublist; [apply sublist_filter|done].
  - apply Forall_fmap, Forall_forall. intros n [Hn Hl]%list_elem_of_filter. simpl.
    split; [done|]. split; [|done].
    apply Hin, list_elem_of_fmap in Hl as (s & -> & Hs).
    intros Hnil. assert (s ∈ filter (λ s', Summary.Length s' = Summary.Length s) sdf) as Hs'
      by (by apply list_elem_of_filter).
    rewrite Hnil in Hs'. by apply elem_of_nil in Hs'.
  - rewrite <-list_fmap_compose.
    rewrite (list_fmap_ext _ (λ n, filter (λ s, Summary.Length s = n) sdf) kept) by done.
    rewrite (concat_groups Summary.Length kept sdf) by (by apply NoDup_filter).
    assert (∀ s, s ∈ sdf → Summary.Length s ∈ kept ↔ Summary.Length s ∉ exclude_lengths) as Hkept.
    { intros s Hs. unfold kept. rewrite list_elem_of_filter, Hin.
      split; [by intros [? _]|]. intros ?. split; [done|]. by apply list_elem_of_fmap_2. }
    by rewrite (filter_iff_elem_of _ (λ s, Summary.Length s ∉ exclude_lengths) sdf Hkept).
Qed.

End ReportSections.

(** ** The files *)

Lemma organize_fold (names : list string) (fs : gmap (list string) string) :
  NoDup names →
  let fs' := foldl (λ fs file,
                      if bool_decide (is_Some (fs !! [file]))
                      then move [file] ["DYNOPHORE_RESULTS"; file] fs else fs) fs names in
  (∀ file, file ∈ names →
     fs' !! [file] = None ∧
     fs' !! ["DYNOPHORE_RESULTS"; file]
       = match fs !! [file] with
         | Some content => Some content
         | None => fs !! ["DYNOPHORE_RESULTS"; file]
         end) ∧
  (∀ p, (∀ file, file ∈ names → p ≠ [file] ∧ p ≠ ["DYNOPHORE_RESULTS"; file]) →
        fs' !! p = fs !! p).
Proof.
  intros Hnd. revert fs. induction Hnd as [|f names Hf Hnd IH]; intros fs; simpl.
  { split; [by intros ? ?%elem_of_nil|done]. }
  set (fs1 := if bool_decide (is_Some (fs !! [f]))
              then move [f] ["DYNOPHORE_RESULTS"; f] fs else fs).
  assert (fs1 !! [f] = None) as H1.
  { unfold fs1, move. case_bool_decide as He.
    - destruct He as [c ->]. rewrite lookup_insert_ne by done. apply lookup_delete_eq.
    - by apply eq_None_not_Some. }
  assert (fs1 !! ["DYNOPHORE_RESULTS"; f]
          = match fs !! [f] with Some c => Some c | None => fs !! ["DYNOPHORE_RESULTS"; f] end)
    as H2.
  { unfold fs1, move. case_bool_decide as He.
    - destruct He as [c ->]. apply lookup_insert_eq.
    - apply eq_None_not_Some in He. by rewrite He. }
  assert (∀ p, p ≠ [f] → p ≠ ["DYNOPHORE_RESULTS"; f] → fs1 !! p = fs !! p) as H3.
  { intros p Hp1 Hp2. unfold fs1, move. case_bool_decide as He; [|done].
    destruct He as [c ->]. rewrite lookup_insert_ne by done. by apply lookup_delete_ne. }
  destruct (IH fs1) as [IH1 IH2]. split.
  - intros file [->|Hin]%elem_of_cons.
    + rewrite !IH2; [done|..]; intros g Hg; split; intros [= ->]; done.
    + destruct (IH1 file Hin) as [-> ->]. split; [done|].
      assert (file ≠ f) by (by intros ->).
      rewrite !H3 by (by intros [= ?]). done.
  - intros p Hp. rewrite IH2 by (intros g Hg; apply Hp; by right).
    apply H3; apply Hp; by left.
Qed.

(** After lines 174 to 189 none of the five result files is left in the
    working directory.  Each one that was there is in DYNOPHORE_RESULTS with
    its content; for one that was not there, DYNOPHORE_RESULTS keeps the
    file of that name it had, if any.  No other file is touched. *)
Theorem organize_outputs_moves (fs : gmap (list string) string) :
  (∀ file, file ∈ result_files →
     organize_outputs fs !! [file] = None ∧
     organize_outputs fs !! ["DYNOPHORE_RESULTS"; file]
       = match fs !! [file] with
         | Some content => Some content
         | None => fs !! ["DYNOPHORE_RESULTS"; file]
         end) ∧
  (∀ p, (p ∉ (λ file, [file]) <$> result_files) →
        (p ∉ (λ file, ["DYNOPHORE_RESULTS"; file]) <$> result_files) →
        organize_outputs fs !! p = fs !! p).
Proof.
  assert (NoDup result_files) as Hnd.
  { apply (bool_decide_unpack _). by vm_compute. }
  destruct (organize_fold result_files fs Hnd) as [H1 H2]. split; [exact H1|].
  intros p Hp1 Hp2. apply H2. intros file Hfile. split; intros ->.
  - apply Hp1. by apply (list_elem_of_fmap_2 (λ file, [file])).
  - apply Hp2. by apply (list_elem_of_fmap_2 (λ file, ["DYNOPHORE_RESULTS"; file])).
Qed.

(** The loop of lines 197 to 205 prints one warning per selected row whose
    hypothesis file is missing from saved_HYPOTHESIS, in the order of the
    rows; for every other selected row BEST_HYPOTHESES holds the saved file
    under the same name at the end; and every other path, saved_HYPOTHESIS
    included, holds what it held. *)
Theorem copy_best_hypotheses_spec (filtered_summary : list Summary.row)
    (fs : gmap (list string) string) :
  (copy_best_hypotheses filtered_summary fs).2
    = hypothesis_warning <$> filter (λ row, saved fs row = None) filtered_summary ∧
  (∀ row content, row ∈ filtered_summary → saved fs row = Some content →
     (copy_best_hypotheses filtered_summary fs).1
       !! ["BEST_HYPOTHESES"; hypo_file (Summary.Frame row)] = Some content) ∧
  (∀ p, (∀ row, row ∈ filtered_summary → is_Some (saved fs row) →
           p ≠ ["BEST_HYPOTHESES"; hypo_file (Summary.Frame row)]) →
        (copy_best_hypotheses filtered_summary fs).1 !! p = fs !! p).
Proof.
  enough (∀ rows fs out,
    let step := λ '(fs, printed) row,
             let frame_id := Summary.Frame row in
             let src_path := ["DYNOPHORE_ANALYSIS"; "saved_HYPOTHESIS"; hypo_file frame_id] in
             let dst_path := ["BEST_HYPOTHESES"; hypo_file frame_id] in
             if bool_decide (is_Some (fs !! src_path))
             then (copy2 src_path dst_path fs, printed)
             else (fs, printed ++ ["Warning: " +:+ hypo_file frame_id
                                    +:+ " not found in saved_HYPOTHESIS."]) in
    let result := foldl step (fs, out) rows in
    result.2 = out ++ (hypothesis_warning <$> filter (λ row, saved fs row = None) rows) ∧
    (∀ row content, row ∈ rows → saved fs row = Some content →
       result.1 !! ["BEST_HYPOTHESES"; hypo_file (Summary.Frame row)] = Some content) ∧
    (∀ p, (∀ row, row ∈ rows → is_Some (saved fs row) →
             p ≠ ["BEST_HYPOTHESES"; hypo_file (Summary.Frame row)]) →
          result.1 !! p = fs !! p)) as Hgen
    by apply (Hgen filtered_summary fs []).
  clear. intros rows fs out.
  intros step. revert fs out. induction rows as [|row rows IH]; intros fs out; simpl.
  { split; [by rewrite app_nil_r|]. split; [by intros ?? ?%elem_of_nil|done]. }
  set (src := ["DYNOPHORE_ANALYSIS"; "saved_HYPOTHESIS"; hypo_file (Summary.Frame row)]).
  set (dst := ["BEST_HYPOTHESES"; hypo_file (Summary.Frame row)]).
  assert (saved fs row = fs !! src) as Hsv by done.
  destruct (fs !! src) as [c|] eqn:Hsrc.
  - rewrite bool_decide_eq_true_2 by (by eexists).
    unfold copy2. rewrite Hsrc.
    assert (∀ r, saved (<[dst:=c]> fs) r = saved fs r) as Hsaved
      by (intros r; unfold saved; by rewrite lookup_insert_ne).
    destruct (IH (<[dst:=c]> fs) out) as (IH1 & IH2 & IH3).
    split; [|split].
    + rewrite IH1, filter_cons.
      rewrite decide_False by (by rewrite Hsv). f_equal. f_equal.
      apply list_filter_iff. intros r. by rewrite Hsaved.
    + intros r content Hr Hc.
      destruct (decide (hypo_file (Summary.Frame r) ∈ (hypo_file ∘ Summary.Frame <$> rows)))
        as [(r' & Heq & Hr')%list_elem_of_fmap|Hnin]; simpl in *.
      { rewrite Heq. apply IH2; [done|]. rewrite Hsaved. unfold saved in *. by rewrite <-Heq. }
      apply elem_of_cons in Hr as [->|Hr];
        [|destruct Hnin; by apply (list_elem_of_fmap_2 (hypo_file ∘ Summary.Frame))].
      rewrite IH3.
      * fold dst. rewrite lookup_insert_eq. congruence.
      * intros r' Hr' _ Heq. apply Hnin. injection Heq as ->.
        by apply (list_elem_of_fmap_2 (hypo_file ∘ Summary.Frame)).
    + intros p Hp. rewrite IH3.
      * apply lookup_insert_ne. intros <-. eapply (Hp row); [by left| |done].
        by rewrite Hsv.
      * intros r Hr Hs. apply Hp; [by right|]. by rewrite <-Hsaved.
  - rewrite bool_decide_eq_false_2 by (by apply eq_None_not_Some).
    destruct (IH fs (out ++ [hypothesis_warning row])) as (IH1 & IH2 & IH3).
    match goal with
    | |- context [foldl ?s ?init rows] =>
        change (foldl s init rows) with (foldl step (fs, out ++ [hypothesis_warning row]) rows)
    end.
    split; [|split].
    + rewrite IH1, filter_cons.
      rewrite decide_True by done. by rewrite fmap_cons, <-app_assoc.
    + intros r content [->|Hr]%elem_of_cons Hc; [|by apply IH2].
      congruence.
    + intros p Hp. apply IH3. intros r Hr. apply Hp. by right.
Qed.
